(** * Gaussian classifier of [labs/lab02/lab02_gaussian_classifier.py]

    A shallow embedding of the statistical core of the script: the mixture
    sampler [gm_sample], the estimator [fit_gaussian_classifier], the
    density evaluator [gaussian_pdf] and the scorer [evaluate_classifier].

    Numbers.  A [float64] is read as the real number it denotes: rounding,
    overflow and underflow are idealised away, so [+], [*], [exp] ... are
    the operations of [R].  What is kept is every place where Python or
    numpy leaves the finite reals or stops:
    - a Python exception is [Raise e];
    - a numpy operation that goes on with NaN or an infinity (it only
      warns) is [NonReal]: the run continues in Python, but its values are
      no longer real numbers and the embedding stops there.
    The density evaluator is embedded a second time with the range of
    float64 kept, [gaussian_pdf_f64]: there an operation can overflow to an
    infinity, line 117 can raise on overflow and underflow, and the
    arrays returned can hold NaN.  Only rounding is idealised in it.

    Arrays.  A 1-D [ndarray] is a [list]; a 2-D one is a [matrix], which
    records its column count so that an array of shape (0, D) still has
    [X.shape[1] = D].  Arrays that the source updates by index are updated
    with stdpp's list insert behind an explicit bounds check. *)

From Stdlib Require Import Reals Lra Lia ZArith String Sorted.
From stdpp Require Import base list gmap strings.
Open Scope R_scope.

(** ** Outcomes *)

Inductive exn :=
  ValueError | IndexError | ZeroDivisionError | TypeError | OverflowError.

Inductive outcome (A : Type) :=
  | Ok (a : A)
  | Raise (e : exn)
  | NonReal.
Arguments Ok {A} a.
Arguments Raise {A} e.
Arguments NonReal {A}.

#[global] Instance outcome_ret : MRet outcome := @Ok.
#[global] Instance outcome_bind : MBind outcome := fun A B f m =>
  match m with
  | Ok a => f a
  | Raise e => Raise e
  | NonReal => NonReal
  end.

#[global] Instance R_eq_dec : EqDecision R := Req_dec_T.
#[global] Instance R_lt_dec : RelDecision Rlt := Rlt_dec.
#[global] Instance R_le_dec : RelDecision Rle := Rle_dec.

(** ** numpy and Python primitives used by the script *)

(** A [float64] that may have left the reals; only [np_true_divide] and
    [nan_to_num] look at the special values. *)
Inductive npfloat := Fin (r : R) | PInf | NInf | NaN.

(** [a / b] on numpy scalars or arrays: never raises. *)
Definition np_true_divide (a b : R) : npfloat :=
  if decide (b = 0) then
    if decide (a = 0) then NaN else if decide (0 < a) then PInf else NInf
  else Fin (a / b).

(** The same division where the result is used as a number afterwards. *)
Definition np_div (a b : R) : outcome R :=
  match np_true_divide a b with
  | Fin r => Ok r
  | _ => NonReal
  end.

(** [a / b] on Python ints or floats. *)
Definition py_div (a b : R) : outcome R :=
  if decide (b = 0) then Raise ZeroDivisionError else Ok (a / b).

(** Largest finite [float64], what [np.nan_to_num] puts for an infinity. *)
Definition DBL_MAX : R := (2 - / 2 ^ 52) * 2 ^ 1023.

Definition nan_to_num (x : npfloat) : R :=
  match x with
  | Fin r => r
  | NaN => 0
  | PInf => DBL_MAX
  | NInf => - DBL_MAX
  end.

(** [np.clip(x, lo, None)] *)
Definition np_clip_min (lo x : R) : R := Rmax x lo.

(** [a.sum()] of a 1-D array *)
Definition rsum (l : list R) : R := foldr Rplus 0 l.

(** [a[i]] and [a[i] = v] *)
Definition getitem {A} (l : list A) (i : nat) : outcome A :=
  match l !! i with
  | Some v => Ok v
  | None => Raise IndexError
  end.

Definition setitem {A} (l : list A) (i : nat) (v : A) : outcome (list A) :=
  if decide (i < length l)%nat then Ok (<[i:=v]> l) else Raise IndexError.

(** [for i, a in enumerate(l, start=i): s = body(s, i, a)] *)
Fixpoint for_enumerate {St A} (body : St -> nat -> A -> outcome St)
    (i : nat) (l : list A) (s : St) : outcome St :=
  match l with
  | [] => Ok s
  | a :: t => s' ← body s i a; for_enumerate body (S i) t s'
  end.

(** [mapM] for outcomes, left to right *)
Fixpoint traverse {A B} (f : A -> outcome B) (l : list A) : outcome (list B) :=
  match l with
  | [] => Ok []
  | a :: t => b ← f a; bs ← traverse f t; Ok (b :: bs)
  end.

(** 2-D arrays *)
Record matrix := Matrix { ncols : nat; rows : list (list R) }.

Definition nrows (X : matrix) : nat := length (rows X).

Definition wf_matrix (X : matrix) : Prop :=
  Forall (fun r => length r = ncols X) (rows X).

(** [np.unique(y)]: the distinct values, ascending *)
Fixpoint insert_sorted (k : Z) (l : list Z) : list Z :=
  match l with
  | [] => [k]
  | h :: t =>
      if (k <? h)%Z then k :: l
      else if (k =? h)%Z then l
      else h :: insert_sorted k t
  end.

Definition np_unique (y : list Z) : list Z := foldr insert_sorted [] y.

(** [y == k] *)
Definition mask_eq (y : list Z) (k : Z) : list bool := map (Z.eqb k) y.

(** [a[mask]] for a boolean mask over axis 0 *)
Fixpoint compress {A} (mask : list bool) (l : list A) : list A :=
  match mask, l with
  | b :: m, x :: t => if b then x :: compress m t else compress m t
  | _, _ => []
  end.

Definition bool_index {A} (l : list A) (mask : list bool) : outcome (list A) :=
  if decide (length mask = length l) then Ok (compress mask l)
  else Raise IndexError.

(** [np.add.reduce(Xk, axis=0)] on rows of length [D] *)
Definition col_sum (D : nat) (Xk : list (list R)) : list R :=
  foldr (zip_with Rplus) (replicate D 0) Xk.

(** [Xk.mean(axis=0)] *)
Definition np_mean_axis0 (D : nat) (Xk : list (list R)) : outcome (list R) :=
  traverse (fun s => np_div s (INR (length Xk))) (col_sum D Xk).

(** One entry of [np.sum((Xk - mu) ** 2, axis=1)] *)
Definition sq_dist (mu r : list R) : R :=
  rsum (map (fun d => d ^ 2) (zip_with Rminus r mu)).

(** ** Data structures *)

Record GaussianClassifier := {
  gtype : string;
  priors : list R;            (* shape (K,) *)
  means : list (list R);      (* shape (K, D) *)
  variances : list R          (* shape (K,) for 'I', shape (1,) for 'i' *)
}.

(** ** [fit_gaussian_classifier] *)

Definition eps_var : R := 1e-9.

Definition recognized (g : string) : bool :=
  (String.eqb g "I" || String.eqb g "i")%bool.

Record fit_state := FitState {
  st_priors : list R;
  st_means : list (list R);
  st_variances : list R
}.

(** Body of [for idx, k in enumerate(classes)] *)
Definition fit_body (X : matrix) (y : list Z) (per_class : bool)
    (st : fit_state) (idx : nat) (k : Z) : outcome fit_state :=
  Xk ← bool_index (rows X) (mask_eq y k);
  p ← py_div (INR (length Xk)) (INR (nrows X));
  ps ← setitem (st_priors st) idx p;
  mu ← np_mean_axis0 (ncols X) Xk;
  ms ← setitem (st_means st) idx mu;
  mu' ← getitem ms idx;
  let sq_norm := map (sq_dist mu') Xk in
  v ← np_div (rsum sq_norm) (INR (length Xk * ncols X));
  let j := if per_class then idx else 0%nat in
  old ← getitem (st_variances st) j;
  vs ← setitem (st_variances st) j (old + v);
  Ok (FitState ps ms vs).

Definition fit_gaussian_classifier (X : matrix) (y : list Z) (g : string)
    : outcome GaussianClassifier :=
  if negb (recognized g) then Raise ValueError else
  let classes := np_unique y in
  let K := length classes in
  let D := ncols X in
  let per_class := String.eqb g "I" in
  let st0 := FitState (replicate K 0) (replicate K (replicate D 0))
                      (replicate (if per_class then K else 1%nat) 0) in
  st ← for_enumerate (fit_body X y per_class) 0 classes st0;
  vs ← (if per_class then Ok (map (np_clip_min eps_var) (st_variances st))
        else
          v0 ← getitem (st_variances st) 0;
          q ← np_div v0 (INR K);
          Ok (map (fun _ => np_clip_min eps_var q) (st_variances st)));
  Ok {| gtype := g; priors := st_priors st; means := st_means st;
        variances := vs |}.

(** Closed forms of what one iteration of the estimator's loop computes for
    class [k] (spec section 4.2): the class's rows, its prior, its mean and
    its average squared deviation per dimension [v_k]. *)
Definition class_rows (X : matrix) (y : list Z) (k : Z) : list (list R) :=
  compress (mask_eq y k) (rows X).

Definition class_prior (X : matrix) (y : list Z) (k : Z) : R :=
  INR (length (class_rows X y k)) / INR (nrows X).

Definition class_mean (X : matrix) (y : list Z) (k : Z) : list R :=
  map (fun s => s / INR (length (class_rows X y k)))
      (col_sum (ncols X) (class_rows X y k)).

Definition class_spread (X : matrix) (y : list Z) (k : Z) : R :=
  rsum (map (sq_dist (class_mean X y k)) (class_rows X y k))
  / INR (length (class_rows X y k) * ncols X).

(** The sample-count-weighted pooled variance, which SHARED mode does not
    compute: all squared deviations over all samples and dimensions. *)
Definition pooled_variance (X : matrix) (y : list Z) : R :=
  rsum (map (fun k => rsum (map (sq_dist (class_mean X y k)) (class_rows X y k)))
            (np_unique y))
  / INR (nrows X * ncols X).

(** A labeled dataset: N rows of D features and N labels. *)
Definition wf_dataset (X : matrix) (y : list Z) : Prop :=
  wf_matrix X /\ length y = nrows X.

(** The dataset of the spec's worked example (section 8): D = 1, class 0
    has the samples -1, 0, 1 and class 1 has 3, 4, 5. *)
Definition X_example : matrix := Matrix 1 [[-1]; [0]; [1]; [3]; [4]; [5]].
Definition y_example : list Z := [0; 0; 0; 1; 1; 1]%Z.

(** The model of the worked example, as fitted in PER_CLASS mode. *)
Definition model_example : GaussianClassifier :=
  {| gtype := "I"; priors := [1/2; 1/2]; means := [[0]; [4]];
     variances := [2/3; 2/3] |}.

(** The same model as fitted in SHARED mode. *)
Definition model_example_shared : GaussianClassifier :=
  {| gtype := "i"; priors := [1/2; 1/2]; means := [[0]; [4]];
     variances := [2/3] |}.

(** A dataset with classes of unequal size: class 0 has the samples 0, 2
    and class 1 has 5, 5, 5, 5. *)
Definition X_unbalanced : matrix := Matrix 1 [[0]; [2]; [5]; [5]; [5]; [5]].
Definition y_unbalanced : list Z := [0; 0; 1; 1; 1; 1]%Z.

(** ** [gaussian_pdf] *)

Definition eps_px : R := 1e-12.

(** [for k in range(n): s = body(s, k)] *)
Definition for_range {St} (body : St -> nat -> outcome St) (n : nat) (s : St)
    : outcome St :=
  for_enumerate (fun s k (_ : nat) => body s k) 0 (seq 0 n) s.

(** [X - mean]: numpy broadcasts shape (Q, D) against shape (D',). *)
Definition broadcast_sub (X : matrix) (mean : list R) : outcome matrix :=
  if decide (length mean = ncols X) then
    Ok (Matrix (ncols X) (map (fun r => zip_with Rminus r mean) (rows X)))
  else
    match mean with
    | [m0] => Ok (Matrix (ncols X) (map (map (fun x => x - m0)) (rows X)))
    | _ =>
        if decide (ncols X = 1%nat) then
          Ok (Matrix (length mean)
                (map (fun r => match r with
                               | [x] => map (fun m => x - m) mean
                               | _ => []
                               end) (rows X)))
        else Raise ValueError
    end.

(** A Python number at line 117: a float, or the complex number that
    [**] returns for a negative base and a fractional exponent.  In exact
    arithmetic that power is purely imaginary, [y j]. *)
Inductive pynum := PyFloat (x : R) | PyImag (y : R).

(** [b ** (D / 2)]: a real power for a positive base, an integral power
    when [D] is even, [0.0] for [0.0 ** (D / 2)] with [D] odd, and for a
    negative base and [D] odd the principal value
    [(-b) ** (D / 2) * exp(i pi D / 2)], which is [+-(-b) ** (D / 2) j].
    The range of float64 is left out here: see [py_pow_half_f64]. *)
Definition py_pow_half (b : R) (D : nat) : pynum :=
  if decide (0 < b) then PyFloat (Rpower b (INR D / 2))
  else if Nat.even D then PyFloat (b ^ (D / 2))
  else if decide (b = 0) then PyFloat 0
  else PyImag ((if Nat.even (D / 2) then 1 else -1)
               * Rpower (- b) (INR D / 2)).

(** [a / p] for a float [a]: [a / (y j)] is [-(a / y) j]. *)
Definition py_div_num (a : R) (p : pynum) : outcome pynum :=
  match p with
  | PyFloat x => r ← py_div a x; Ok (PyFloat r)
  | PyImag y =>
      if decide (y = 0) then Raise ZeroDivisionError
      else Ok (PyImag (- a / y))
  end.

(** One entry of [px_given_c[:, k] = coef * np.exp(exponent)]: with a
    complex coefficient the product is a complex array, and the assignment
    into the float64 column keeps its real part (numpy warns and discards
    the imaginary part). *)
Definition times_exp (coef : pynum) (e : R) : R :=
  match coef with
  | PyFloat c => c * exp e
  | PyImag _ => 0
  end.

(** One pass of the loop over classes, up to the column written into
    [px_given_c[:, k]]. *)
Definition class_density (X : matrix) (model : GaussianClassifier) (k : nat)
    : outcome (list R) :=
  mean ← getitem (means model) k;
  sigma2 ← (if String.eqb (gtype model) "i" then getitem (variances model) 0
            else getitem (variances model) k);
  let p := py_pow_half (2 * PI * sigma2) (ncols X) in
  coef ← py_div_num 1 p;
  diff ← broadcast_sub X mean;
  exponent ← traverse
    (fun r => np_div (- 0.5 * rsum (map (fun d => d * d) r)) sigma2)
    (rows diff);
  Ok (map (times_exp coef) exponent).

(** [M[:, k] = col] *)
Definition set_column {A} (M : list (list A)) (k : nat) (col : list A)
    : outcome (list (list A)) :=
  if decide (length col = length M) then
    Ok (zip_with (fun row v => <[k:=v]> row) M col)
  else Raise ValueError.

(** [row @ p] for one row *)
Definition dot (row p : list R) : R := rsum (zip_with Rmult row p).

Record pdf_result := {
  px : list R;                    (* p(x), shape (Q,) *)
  px_given_c : list (list R);     (* p(x|C), shape (Q, K) *)
  p_c_given_x : list (list R);    (* p(C|x), shape (Q, K) *)
  px_and_c : list (list R)        (* p(x, C), shape (Q, K) *)
}.

Definition gaussian_pdf (X : matrix) (model : GaussianClassifier)
    : outcome pdf_result :=
  let K := length (priors model) in
  pxc ← for_range
    (fun M k => col ← class_density X model k; set_column M k col)
    K (replicate (nrows X) (replicate K 0));
  let px0 := map (fun row => dot row (priors model)) pxc in
  let px1 := map (np_clip_min eps_px) px0 in
  let joint := map (fun row => zip_with Rmult row (priors model)) pxc in
  (* the divisor is at least 1e-12, so this division stays real *)
  let post := zip_with (fun row e => map (fun v => v / e) row) joint px1 in
  Ok {| px := px1; px_given_c := pxc; p_c_given_x := post; px_and_c := joint |}.

(** ** [evaluate_classifier] *)

(** [a.argmax()]: the first index of the largest entry; numpy raises on an
    empty axis. *)
Fixpoint argmax_from (best : R) (bi i : nat) (l : list R) : nat :=
  match l with
  | [] => bi
  | x :: t =>
      if decide (best < x) then argmax_from x i (S i) t
      else argmax_from best bi (S i) t
  end.

Definition argmax (l : list R) : outcome nat :=
  match l with
  | [] => Raise ValueError
  | x :: t => Ok (argmax_from x 0 1 t)
  end.

(** [M.argmax(axis=1)] for [M] of shape (Q, K) *)
Definition argmax_axis1 (K : nat) (M : list (list R)) : outcome (list nat) :=
  if decide (K = 0%nat) then Raise ValueError else traverse argmax M.

(** [sklearn.metrics.confusion_matrix(y_true, y_pred, labels=labels)], as
    its documentation describes it: entry (i, j) counts the samples whose
    true label is [labels[i]] and predicted label is [labels[j]]; samples
    with a label outside [labels] are not counted. *)
Definition count_pairs (y_true y_pred : list Z) (t p : Z) : nat :=
  length (filter (fun tp => tp.1 = t /\ tp.2 = p) (zip y_true y_pred)).

Definition confusion_matrix (y_true y_pred labels : list Z)
    : outcome (list (list nat)) :=
  if decide (length y_true = length y_pred) then
    if decide (labels = []) then Raise ValueError
    else Ok (map (fun t => map (count_pairs y_true y_pred t) labels) labels)
  else Raise ValueError.

(** [np.nan_to_num(counts / counts.sum(axis=1, keepdims=True))], one row *)
Definition normalize_row (row : list nat) : list R :=
  map (fun c => nan_to_num (np_true_divide (INR c) (INR (sum_list row)))) row.

(** [float(np.mean(y_pred != y))]; NaN on an empty dataset *)
Definition error_rate (y_pred : list nat) (y : list Z) : outcome npfloat :=
  if decide (length y_pred = length y) then
    Ok (np_true_divide
          (INR (length (filter (fun py => Z.of_nat py.1 <> py.2) (zip y_pred y))))
          (INR (length y)))
  else Raise ValueError.

Record EvaluationResult := {
  y_pred : list nat;
  error : npfloat;
  confusion : list (list nat);
  confusion_norm : list (list R);
  posteriors : list (list R);
  roc : option (list R * list R * R)      (* fpr, tpr, auc: only when K = 2 *)
}.

Section Evaluate.
(** [sklearn.metrics.roc_curve] and [auc] are taken as given. *)
Variable roc_curve : list Z -> list R -> outcome (list R * list R).
Variable auc : list R -> list R -> outcome R.

Definition evaluate_classifier (X : matrix) (y : list Z)
    (model : GaussianClassifier) : outcome EvaluationResult :=
  pdf ← gaussian_pdf X model;
  let posteriors := p_c_given_x pdf in
  y_pred ← argmax_axis1 (length (priors model)) posteriors;
  error ← error_rate y_pred y;
  let labels := np_unique y in
  cn_counts ← confusion_matrix y (map Z.of_nat y_pred) labels;
  let cn_norm := map normalize_row cn_counts in
  roc ← (if decide (length labels = 2%nat) then
           score ← traverse (fun row => getitem row 1) posteriors;
           ft ← roc_curve y score;
           a ← auc ft.1 ft.2;
           Ok (Some (ft.1, ft.2, a))
         else Ok None);
  Ok {| y_pred := y_pred; error := error; confusion := cn_counts;
        confusion_norm := cn_norm; posteriors := posteriors; roc := roc |}.
End Evaluate.

(** The isotropic Gaussian density that one entry of [px_given_c] holds
    (spec section 4.3), for a mean [mu] and a variance [s]. *)
Definition gauss (D : nat) (mu : list R) (s : R) (x : list R) : R :=
  1 / Rpower (2 * PI * s) (INR D / 2)
  * exp (- 0.5 * rsum (map (fun d => d * d) (zip_with Rminus x mu)) / s).

(** The variance that class [k] uses: [variances[0]] under "i",
    [variances[k]] otherwise. *)
Definition sigma2_of (model : GaussianClassifier) (k : nat) : option R :=
  if String.eqb (gtype model) "i" then variances model !! 0%nat
  else variances model !! k.

(** Shapes of a model with K classes facing queries of dimension D. *)
Definition wf_model (D : nat) (model : GaussianClassifier) : Prop :=
  length (means model) = length (priors model)
  /\ Forall (fun mu => length mu = D) (means model)
  /\ forall k, (k < length (priors model))%nat -> is_Some (sigma2_of model k).

(** The query points of the worked example. *)
Definition X_query (x : R) : matrix := Matrix 1 [[x]].
Definition X_mid : matrix := X_query 2.

(** ** [gm_sample]

    The sampler is the one function whose arguments are looked at as
    objects: [np.asarray(a, dtype=float)] returns [a] itself when [a] is
    already a float64 array and a fresh copy otherwise, and [priors /= s]
    writes into whatever object [priors] then names.  The Python heap is a
    finite map from object identities to objects. *)

Inductive container := NdFloat64 | NdInt64 | PyList.

Inductive pyobj :=
  | Arr1 (c : container) (data : list R)        (* 1-D: shape (K,) *)
  | Arr2 (c : container) (data : matrix)        (* 2-D: shape (K, D) *)
  | ArrNonReal (c : container).                 (* holds NaN or infinities *)

Definition container_of (o : pyobj) : container :=
  match o with
  | Arr1 c _ | Arr2 c _ | ArrNonReal c => c
  end.

Abbreviation loc := nat (only parsing).
Abbreviation heap := (gmap nat pyobj) (only parsing).

(** Computations on the heap; an exception leaves the heap as it was when
    the exception was raised. *)
Definition hstate (A : Type) : Type := heap -> heap * outcome A.

#[global] Instance hstate_ret : MRet hstate := fun A a h => (h, Ok a).
#[global] Instance hstate_bind : MBind hstate := fun A B f m h =>
  match m h with
  | (h', Ok a) => f a h'
  | (h', Raise e) => (h', Raise e)
  | (h', NonReal) => (h', NonReal)
  end.

Definition lift {A} (o : outcome A) : hstate A := fun h => (h, o).

(** [np.asarray(a, dtype=float)]: no copy for a float64 array.  A name
    that denotes no object is not a Python state; the embedding answers
    [TypeError] there. *)
Definition np_asarray_float (a : loc) : hstate loc := fun h =>
  match h !! a with
  | Some (Arr1 NdFloat64 _) | Some (Arr2 NdFloat64 _)
  | Some (ArrNonReal NdFloat64) => (h, Ok a)
  | Some (Arr1 _ d) =>
      let a' := fresh (dom h) in (<[a' := Arr1 NdFloat64 d]> h, Ok a')
  | Some (Arr2 _ d) =>
      let a' := fresh (dom h) in (<[a' := Arr2 NdFloat64 d]> h, Ok a')
  | Some (ArrNonReal _) =>
      let a' := fresh (dom h) in (<[a' := ArrNonReal NdFloat64]> h, Ok a')
  | None => (h, Raise TypeError)
  end.

(** [a /= a.sum()]: every entry of the array, whatever its dimension, is
    divided in place by the sum of all entries.  numpy does not raise on a
    zero sum: it warns and stores NaN or infinities, and so it does when
    the array already holds some. *)
Definition idiv_sum (a : loc) : hstate unit := fun h =>
  match h !! a with
  | Some (Arr1 c d) =>
      match traverse (fun x => np_div x (rsum d)) d with
      | Ok d' => (<[a := Arr1 c d']> h, Ok tt)
      | _ => (<[a := ArrNonReal c]> h, Ok tt)
      end
  | Some (Arr2 c m) =>
      let s := rsum (concat (rows m)) in
      match traverse (traverse (fun x => np_div x s)) (rows m) with
      | Ok rs => (<[a := Arr2 c (Matrix (ncols m) rs)]> h, Ok tt)
      | _ => (<[a := ArrNonReal c]> h, Ok tt)
      end
  | Some (ArrNonReal c) => (h, Ok tt)
  | None => (h, Raise TypeError)
  end.

(** What [rng.choice(priors.size, size=n_samples, p=priors)] makes of
    [priors]: numpy refuses with [ValueError] a [p] that is not 1-D and a
    [p] that holds NaN, which is what a division by a zero or infinite sum
    leaves in a non-empty array. *)
Definition read_p (a : loc) : hstate (list R) := fun h =>
  match h !! a with
  | Some (Arr1 _ d) => (h, Ok d)
  | Some (Arr2 _ _) | Some (ArrNonReal _) => (h, Raise ValueError)
  | None => (h, Raise TypeError)
  end.

(** Reading the means as a 2-D and the variances as a 1-D array; the
    sampler is annotated with these dimensions and the embedding answers
    [TypeError] on others.  An array of NaN or infinities has no real
    content to go on with. *)
Definition read1 (a : loc) : hstate (list R) := fun h =>
  match h !! a with
  | Some (Arr1 _ d) => (h, Ok d)
  | Some (ArrNonReal _) => (h, NonReal)
  | _ => (h, Raise TypeError)
  end.

Definition read2 (a : loc) : hstate matrix := fun h =>
  match h !! a with
  | Some (Arr2 _ d) => (h, Ok d)
  | Some (ArrNonReal _) => (h, NonReal)
  | _ => (h, Raise TypeError)
  end.

(** numpy's [Generator], taken as given: a generator built from a seed,
    [choice(a, size, p)] and [normal(loc, scale, size=(m, D))], each
    returning its result (or raising) and the generator's next state. *)
Class NumpyRandom (G : Type) := {
  default_rng_seed : Z -> G;
  rng_choice : G -> nat -> nat -> list R -> outcome (list nat) * G;
  rng_normal : G -> list R -> R -> nat -> nat -> outcome (list (list R)) * G
}.

(** What the documentation of [choice] promises about its result. *)
Definition choice_in_range {G} `{NumpyRandom G} : Prop :=
  forall g a size p cs g',
    rng_choice g a size p = (Ok cs, g') ->
    length cs = size /\ Forall (fun c => (c < a)%nat) cs.

(** What a call cannot control: the generator that [default_rng(None)]
    builds from operating-system entropy, and the bytes that [np.empty]
    happens to return. *)
Record world (G : Type) := World {
  os_entropy : G;
  uninit : nat -> nat -> R
}.
Arguments World {G} _ _.
Arguments os_entropy {G} _.
Arguments uninit {G} _ _ _.

(** [math.sqrt] *)
Definition py_sqrt (v : R) : outcome R :=
  if decide (v < 0) then Raise ValueError else Ok (sqrt v).

(** [X[mask] = vals] for a boolean mask over axis 0 *)
Fixpoint mask_assign {A} (mask : list bool) (l vals : list A) : list A :=
  match mask, l with
  | b :: m, x :: t =>
      if b then
        match vals with
        | v :: vs => v :: mask_assign m t vs
        | [] => x :: mask_assign m t []
        end
      else x :: mask_assign m t vals
  | _, _ => l
  end.

Definition count_true (mask : list bool) : nat :=
  length (filter (fun b => b = true) mask).

Definition setitem_mask {A} (l : list A) (mask : list bool) (vals : list A)
    : outcome (list A) :=
  if decide (length mask = length l) then
    if decide (length vals = count_true mask) then Ok (mask_assign mask l vals)
    else Raise ValueError
  else Raise IndexError.

Section Sampler.
Context {G : Type} `{NumpyRandom G}.

Definition default_rng (random_state : option Z) (w : world G) : G :=
  match random_state with
  | Some seed => default_rng_seed seed
  | None => os_entropy w
  end.

(** Body of [for k in range(n_components)] on the state (X, rng). *)
Definition sample_body (components : list nat) (D : nat)
    (means : list (list R)) (variances : list R)
    (st : list (list R) * G) (k : nat) : outcome (list (list R) * G) :=
  let idx := map (Nat.eqb k) components in
  if negb (existsb (fun b => b) idx) then Ok st
  else
    v ← getitem variances k;
    sigma ← py_sqrt v;
    mu ← getitem means k;
    let '(draw, g') := rng_normal st.2 mu sigma (count_true idx) D in
    vals ← draw;
    X' ← setitem_mask st.1 idx vals;
    Ok (X', g').

(** Everything after the three [np.asarray] lines, on the arrays' data. *)
Definition sample_from (n_samples : nat) (priors : list R) (means : matrix)
    (variances : list R) (g : G) (empty : nat -> nat -> R)
    : outcome (matrix * list nat) :=
  let n_components := length priors in
  let '(drawn, g1) := rng_choice g n_components n_samples priors in
  components ← drawn;
  let D := ncols means in
  let X0 := map (fun i => map (empty i) (seq 0 D)) (seq 0 n_samples) in
  st ← for_range (sample_body components D (rows means) variances)
         n_components (X0, g1);
  Ok (Matrix D st.1, components).

Definition gm_sample (n_samples : nat) (priors means variances : loc)
    (random_state : option Z) (w : world G) : hstate (matrix * list nat) :=
  p ← np_asarray_float priors;
  _ ← idiv_sum p;
  m ← np_asarray_float means;
  v ← np_asarray_float variances;
  pd ← read_p p;
  md ← read2 m;
  vd ← read1 v;
  lift (sample_from n_samples pd md vd (default_rng random_state w)
          (uninit w)).
End Sampler.

(** A toy generator for examples: its state counts the calls; [choice]
    deals the components round-robin and [normal] returns the centre. *)
#[global] Instance counter_rng : NumpyRandom nat := {|
  default_rng_seed seed := Z.to_nat seed;
  rng_choice g a size p :=
    (if decide (a = 0%nat) then
       (if decide (size = 0%nat) then Ok [] else Raise ValueError)
     else Ok (map (fun i => (i mod a)%nat) (seq 0 size)), S g);
  rng_normal g mu sigma m D := (Ok (replicate m mu), S g)
|}.

(** A heap with the mixture of the script's [main], before normalization:
    priors [2, 1] as a float64 array at 0, means [[0], [2]] at 1 and
    variances [0.5, 3] at 2. *)
Definition heap_main : heap :=
  <[0%nat := Arr1 NdFloat64 [2; 1]]>
    (<[1%nat := Arr2 NdFloat64 (Matrix 1 [[0]; [2]])]>
       (<[2%nat := Arr1 NdFloat64 [0.5; 3]]> ∅)).

(** Two heaps seen through pairs of names: the names of a pair denote the
    same object, and two pairs share their left name exactly when they
    share their right name (the same aliasing on both sides). *)
Definition related (B : list (loc * loc)) (h1 h2 : heap) : Prop :=
  (forall a b, (a, b) ∈ B -> is_Some (h1 !! a) /\ h1 !! a = h2 !! b)
  /\ (forall a b a' b', (a, b) ∈ B -> (a', b') ∈ B -> (a = a' <-> b = b')).

(** The arguments of a call are objects of the heap, the same in both. *)
Definition same_arguments (priors means variances : loc) (h1 h2 : heap)
    : Prop :=
  forall l, l ∈ [priors; means; variances] ->
    is_Some (h1 !! l) /\ h1 !! l = h2 !! l.

(** The heap of [main] with one more object in it. *)
Definition heap_other : heap := <[7%nat := Arr1 PyList [1]]> heap_main.


(** ** Predicates of the proofs

    What the statements below say about outcomes, heaps and loops. *)

(** The only exceptions a computation can raise satisfy [P]. *)
Definition raises_only {A} (P : exn -> Prop) (o : outcome A) : Prop :=
  forall e, o = Raise e -> P e.

Definition not_ValueError (e : exn) : Prop := e <> ValueError.


(** A heap computation that leaves every existing object as it is. *)
Definition preserves {A} (c : hstate A) : Prop :=
  forall (h : heap) (l : loc) (o : pyobj),
    h !! l = Some o -> (c h).1 !! l = Some o.

(** Two outcomes of the same kind, with results related by [P]. *)
Definition outcome_rel {A} (P : A -> A -> Prop) (o1 o2 : outcome A) : Prop :=
  match o1, o2 with
  | Ok a, Ok b => P a b
  | Raise e, Raise e' => e = e'
  | NonReal, NonReal => True
  | _, _ => False
  end.

(** The rows that belong to components below [k] are already the same
    in two runs that differ in the uninitialised memory only. *)
Definition filled {G : Type} (cs : list nat) (k : nat)
    (s1 s2 : list (list R) * G) : Prop :=
  s1.2 = s2.2 /\ length s1.1 = length cs /\ length s2.1 = length cs
  /\ forall i c, cs !! i = Some c -> (c < k)%nat -> s1.1 !! i = s2.1 !! i.

(** Two heap computations that go the same way on related heaps. *)
Definition hrel {A} (Pre : heap -> heap -> Prop) (c1 c2 : hstate A)
    (Post : A -> A -> heap -> heap -> Prop) : Prop :=
  forall h1 h2, Pre h1 h2 ->
    match c1 h1, c2 h2 with
    | (h1', Ok a1), (h2', Ok a2) => Post a1 a2 h1' h2'
    | (_, Raise e1), (_, Raise e2) => e1 = e2
    | (_, NonReal), (_, NonReal) => True
    | _, _ => False
    end.


(** ** Quantities of the further properties *)

(** Number of samples that carry the label [k]. *)
Definition count_label (y : list Z) (k : Z) : nat :=
  length (filter (fun a => a = k) y).


(** A table of [Q] rows of [K] entries. *)
Definition table_shape (Q K : nat) (M : list (list R)) : Prop :=
  length M = Q /\ Forall (fun row => length row = K) M.

(** A model whose only variance is zero, and a model of dimension 2. *)
Definition model_degenerate : GaussianClassifier :=
  {| gtype := "i"; priors := [1]; means := [[0]]; variances := [0] |}.



(** Two objects that hold the same numbers, whatever holds them. *)
Definition same_data (o o' : pyobj) : Prop :=
  match o, o' with
  | Arr1 _ d, Arr1 _ d' => d = d'
  | Arr2 _ d, Arr2 _ d' => d = d'
  | ArrNonReal _, ArrNonReal _ => True
  | _, _ => False
  end.


(** The heap of [main] with a negative variance for component 0. *)
Definition heap_negative : heap :=
  <[0%nat := Arr1 NdFloat64 [2; 1]]>
    (<[1%nat := Arr2 NdFloat64 (Matrix 1 [[0]; [2]])]>
       (<[2%nat := Arr1 NdFloat64 [-1; 3]]> ∅)).

(** The heap of [main] with the priors written as a 2-D array. *)
Definition priors_2d : matrix := Matrix 2 [[2; 1]].

Definition heap_2d : heap :=
  <[0%nat := Arr2 NdFloat64 priors_2d]>
    (<[1%nat := Arr2 NdFloat64 (Matrix 1 [[0]; [2]])]>
       (<[2%nat := Arr1 NdFloat64 [0.5; 3]]> ∅)).

(** ** [gaussian_pdf] within the range of float64

    The definitions above compute with exact reals.  The ones below keep
    the exact value of every operation but not its range: a result above
    the largest float64 is an infinity, infinities and NaN go on as IEEE
    754 has them, and Python's scalar [**] and [/] of line 117 raise or
    underflow as CPython does.  Rounding inside the range is still left
    out, and so are the sign of zero and the order in which [np.sum] and
    [@] add their terms (the sums below add from the right). *)

(** Smallest positive (subnormal) float64. *)
Definition DBL_TRUE_MIN : R := / 2 ^ 1074.

(** The float64 that an operation with exact result [v] returns. *)
Definition fl (v : R) : npfloat :=
  if decide (DBL_MAX < v) then PInf
  else if decide (v < - DBL_MAX) then NInf
  else Fin v.

Definition f_add (a b : npfloat) : npfloat :=
  match a, b with
  | Fin x, Fin y => fl (x + y)
  | NaN, _ | _, NaN => NaN
  | PInf, NInf | NInf, PInf => NaN
  | PInf, _ | _, PInf => PInf
  | NInf, _ | _, NInf => NInf
  end.

Definition f_mul (a b : npfloat) : npfloat :=
  match a, b with
  | Fin x, Fin y => fl (x * y)
  | NaN, _ | _, NaN => NaN
  | Fin x, PInf | PInf, Fin x =>
      if decide (x = 0) then NaN else if decide (0 < x) then PInf else NInf
  | Fin x, NInf | NInf, Fin x =>
      if decide (x = 0) then NaN else if decide (0 < x) then NInf else PInf
  | PInf, PInf | NInf, NInf => PInf
  | PInf, NInf | NInf, PInf => NInf
  end.

(** [a / b] on numpy arrays: never raises. *)
Definition f_div (a b : npfloat) : npfloat :=
  match a, b with
  | Fin x, Fin y => if decide (y = 0) then np_true_divide x y else fl (x / y)
  | NaN, _ | _, NaN => NaN
  | Fin _, _ => Fin 0
  | _, PInf | _, NInf => NaN
  | PInf, Fin y => if decide (y < 0) then NInf else PInf
  | NInf, Fin y => if decide (y < 0) then PInf else NInf
  end.

(** [np.exp]: [0.0] below half the smallest subnormal, where a product
    with an infinity is NaN. *)
Definition f_exp (a : npfloat) : npfloat :=
  match a with
  | Fin x => if decide (exp x < DBL_TRUE_MIN / 2) then Fin 0 else fl (exp x)
  | PInf => PInf
  | NInf => Fin 0
  | NaN => NaN
  end.

(** [np.clip(a, lo, None)] *)
Definition f_clip_min (lo : R) (a : npfloat) : npfloat :=
  match a with
  | Fin x => Fin (np_clip_min lo x)
  | PInf => PInf
  | NInf => Fin lo
  | NaN => NaN
  end.

(** [np.sum] of a 1-D array *)
Definition f_sum (l : list npfloat) : npfloat := foldr f_add (Fin 0) l.

(** C's [pow] under CPython for a positive finite result [v]:
    [OverflowError] above the range, [0.0] below half the smallest
    subnormal. *)
Definition pow_range (v : R) : outcome R :=
  if decide (DBL_MAX < v) then Raise OverflowError
  else if decide (v < DBL_TRUE_MIN / 2) then Ok 0
  else Ok v.

(** A Python number at line 117, within the range. *)
Inductive pynum_f64 := PyFloat64 (x : npfloat) | PyImag64 (y : npfloat).

(** [b ** (D / 2)] as CPython's [float_pow] goes through its cases:
    exponent zero, infinite base, zero base, negative base with a
    fractional exponent (complex power), then [pow]. *)
Definition py_pow_half_f64 (b : npfloat) (D : nat) : outcome pynum_f64 :=
  if decide (D = 0%nat) then Ok (PyFloat64 (Fin 1))
  else
    match b with
    | NaN => Ok (PyFloat64 NaN)
    | PInf => Ok (PyFloat64 PInf)
    | NInf =>
        Ok (PyFloat64 (if Nat.even D && Nat.odd (D / 2) then NInf else PInf))
    | Fin v =>
        if decide (v = 0) then Ok (PyFloat64 (Fin 0))
        else if decide (0 < v) then
          x ← pow_range (Rpower v (INR D / 2));
          Ok (PyFloat64 (Fin x))
        else if Nat.even D then
          x ← pow_range ((- v) ^ (D / 2));
          Ok (PyFloat64 (Fin (if Nat.even (D / 2) then x else - x)))
        else
          x ← pow_range (Rpower (- v) (INR D / 2));
          Ok (PyImag64 (Fin (if Nat.even (D / 2) then x else - x)))
    end.

(** [a / p] for a Python float [a]: [ZeroDivisionError] on a zero
    divisor, no exception on overflow. *)
Definition py_div_f64 (a : R) (p : pynum_f64) : outcome pynum_f64 :=
  match p with
  | PyFloat64 (Fin v) =>
      if decide (v = 0) then Raise ZeroDivisionError
      else Ok (PyFloat64 (fl (a / v)))
  | PyFloat64 x => Ok (PyFloat64 (f_div (Fin a) x))
  | PyImag64 (Fin v) =>
      if decide (v = 0) then Raise ZeroDivisionError
      else Ok (PyImag64 (fl (- a / v)))
  | PyImag64 y => Ok (PyImag64 (f_div (Fin (- a)) y))
  end.

(** One entry of [px_given_c[:, k] = coef * np.exp(exponent)]; of a
    complex product the column keeps the real part, which is zero when
    both factors are finite and NaN otherwise. *)
Definition times_exp_f64 (coef : pynum_f64) (e : npfloat) : npfloat :=
  match coef with
  | PyFloat64 c => f_mul c (f_exp e)
  | PyImag64 y =>
      match y, f_exp e with
      | Fin _, Fin _ => Fin 0
      | _, _ => NaN
      end
  end.

(** One pass of the loop over classes (lines 111-120). *)
Definition class_density_f64 (X : matrix) (model : GaussianClassifier)
    (k : nat) : outcome (list npfloat) :=
  mean ← getitem (means model) k;
  sigma2 ← (if String.eqb (gtype model) "i" then getitem (variances model) 0
            else getitem (variances model) k);
  p ← py_pow_half_f64 (fl (2 * PI * sigma2)) (ncols X);
  coef ← py_div_f64 1 p;
  diff ← broadcast_sub X mean;
  let exponent :=
    map (fun r =>
           f_div (f_mul (Fin (- 0.5))
                    (f_sum (map (fun d => f_mul (fl d) (fl d)) r)))
             (Fin sigma2))
        (rows diff) in
  Ok (map (times_exp_f64 coef) exponent).

Record pdf_result_f64 := {
  px_f64 : list npfloat;
  px_given_c_f64 : list (list npfloat);
  p_c_given_x_f64 : list (list npfloat);
  px_and_c_f64 : list (list npfloat)
}.

Definition gaussian_pdf_f64 (X : matrix) (model : GaussianClassifier)
    : outcome pdf_result_f64 :=
  let K := length (priors model) in
  let pri := map Fin (priors model) in
  pxc ← for_range
    (fun M k => col ← class_density_f64 X model k; set_column M k col)
    K (replicate (nrows X) (replicate K (Fin 0)));
  let px0 := map (fun row => f_sum (zip_with f_mul row pri)) pxc in
  let px1 := map (f_clip_min eps_px) px0 in
  let joint := map (fun row => zip_with f_mul row pri) pxc in
  let post := zip_with (fun row e => map (fun v => f_div v e) row) joint px1 in
  Ok {| px_f64 := px1; px_given_c_f64 := pxc; p_c_given_x_f64 := post;
        px_and_c_f64 := joint |}.






(** One sample with 80 features, and a query at the same point. *)
Definition X_wide : matrix := Matrix 80 [replicate 80 0].

(** A variance whose power at line 117 leaves the range in dimension 4. *)
Definition model_big : GaussianClassifier :=
  {| gtype := "I"; priors := [1]; means := [[0; 0; 0; 0]];
     variances := [1e300] |}.

Definition X_4d : matrix := Matrix 4 [[0; 0; 0; 0]].

(** * Properties *)

(** ** Outcomes and primitives *)

Lemma bind_Ok {A B} (m : outcome A) (f : A -> outcome B) (b : B) :
  m ≫= f = Ok b -> exists a, m = Ok a /\ f a = Ok b.
Proof. destruct m; simpl; intros H; try discriminate. eauto. Qed.

Lemma np_div_ok (a b : R) : b <> 0 -> np_div a b = Ok (a / b).
Proof.
  intros Hb. unfold np_div, np_true_divide.
  destruct (decide (b = 0)); [contradiction | reflexivity].
Qed.

Lemma np_div_zero (a : R) : np_div a 0 = NonReal.
Proof.
  unfold np_div, np_true_divide.
  destruct (decide (0 = 0)); [| congruence].
  destruct (decide (a = 0)); [reflexivity |].
  destruct (decide (0 < a)); reflexivity.
Qed.

Lemma py_div_ok (a b : R) : b <> 0 -> py_div a b = Ok (a / b).
Proof.
  intros Hb. unfold py_div.
  destruct (decide (b = 0)); [contradiction | reflexivity].
Qed.

Lemma getitem_ok {A} (l : list A) (i : nat) (v : A) :
  l !! i = Some v -> getitem l i = Ok v.
Proof. intros H. unfold getitem. rewrite H. reflexivity. Qed.

Lemma setitem_ok {A} (l : list A) (i : nat) (v : A) :
  (i < length l)%nat -> setitem l i v = Ok (<[i:=v]> l).
Proof.
  intros H. unfold setitem.
  destruct (decide (i < length l)%nat); [reflexivity | contradiction].
Qed.

Lemma traverse_np_div (c : R) (l : list R) :
  c <> 0 -> traverse (fun s => np_div s c) l = Ok (map (fun s => s / c) l).
Proof.
  intros Hc. induction l as [| a l IH]; simpl; [reflexivity |].
  rewrite (np_div_ok a c Hc). simpl. rewrite IH. reflexivity.
Qed.

Lemma rsum_app (l1 l2 : list R) : rsum (l1 ++ l2) = rsum l1 + rsum l2.
Proof.
  unfold rsum. induction l1 as [| a l1 IH]; simpl; [lra | rewrite IH; lra].
Qed.

Lemma rsum_cons (a : R) (l : list R) : rsum (a :: l) = a + rsum l.
Proof. reflexivity. Qed.


(** ** [np.unique] *)

Lemma insert_sorted_elem (k a : Z) (l : list Z) :
  a ∈ insert_sorted k l <-> a = k \/ a ∈ l.
Proof.
  induction l as [| h t IH]; simpl.
  - rewrite list_elem_of_singleton. rewrite elem_of_nil. tauto.
  - destruct (Z.ltb_spec k h); [apply elem_of_cons |].
    destruct (Z.eqb_spec k h) as [-> | Hne].
    + rewrite elem_of_cons. tauto.
    + rewrite !elem_of_cons, IH. tauto.
Qed.

Lemma np_unique_elem (a : Z) (y : list Z) : a ∈ np_unique y <-> a ∈ y.
Proof.
  induction y as [| k y IH]; simpl; [reflexivity |].
  rewrite insert_sorted_elem, IH, elem_of_cons. tauto.
Qed.

Lemma insert_sorted_NoDup (k : Z) (l : list Z) :
  StronglySorted Z.lt l -> StronglySorted Z.lt (insert_sorted k l).
Proof.
  induction 1 as [| h t Hs IH Hh]; simpl.
  - repeat constructor.
  - destruct (Z.ltb_spec k h).
    + constructor; [constructor; assumption |].
      constructor; [assumption |].
      eapply Forall_impl; [exact Hh | simpl; intros; lia].
    + destruct (Z.eqb_spec k h); [constructor; assumption |].
      constructor; [assumption |].
      apply Forall_forall. intros a Ha.
      apply insert_sorted_elem in Ha. destruct Ha as [-> | Ha]; [lia |].
      rewrite Forall_forall in Hh. auto.
Qed.

Lemma np_unique_sorted (y : list Z) : StronglySorted Z.lt (np_unique y).
Proof.
  induction y as [| k y IH]; simpl; [constructor |].
  apply insert_sorted_NoDup, IH.
Qed.

Lemma sorted_lt_NoDup (l : list Z) : StronglySorted Z.lt l -> NoDup l.
Proof.
  induction 1 as [| h t _ IH Hh]; constructor; [| assumption].
  intros Hin. rewrite Forall_forall in Hh. specialize (Hh _ Hin). lia.
Qed.

Lemma np_unique_NoDup (y : list Z) : NoDup (np_unique y).
Proof. apply sorted_lt_NoDup, np_unique_sorted. Qed.

(** ** The estimator's loop *)

Lemma compress_mask_pos (k : Z) (ys : list Z) (rs : list (list R)) :
  length ys = length rs -> k ∈ ys ->
  (0 < length (compress (mask_eq ys k) rs))%nat.
Proof.
  revert rs. induction ys as [| a ys IH]; intros rs Hl Hin.
  - apply elem_of_nil in Hin. contradiction.
  - destruct rs as [| r rs]; [discriminate |]. simpl in *.
    destruct (Z.eqb_spec k a) as [-> | Hne]; simpl; [lia |].
    apply elem_of_cons in Hin. destruct Hin as [-> | Hin]; [congruence |].
    apply IH; [lia | assumption].
Qed.

Section FitLoop.
Variables (X : matrix) (y : list Z).
Hypothesis Hlen : length y = nrows X.
Hypothesis HD : ncols X <> 0%nat.

Lemma mask_eq_length (k : Z) : length (mask_eq y k) = length y.
Proof using Type. unfold mask_eq. apply length_map. Qed.

Lemma bool_index_class (k : Z) :
  bool_index (rows X) (mask_eq y k) = Ok (class_rows X y k).
Proof using Hlen.
  unfold bool_index. rewrite mask_eq_length.
  destruct (decide (length y = length (rows X))) as [| n]; [reflexivity |].
  exfalso. exact (n Hlen).
Qed.

Lemma class_count_pos (k : Z) : k ∈ y -> (0 < length (class_rows X y k))%nat.
Proof using Hlen. intros Hk. apply compress_mask_pos; assumption. Qed.

Lemma nrows_pos (k : Z) : k ∈ y -> (0 < nrows X)%nat.
Proof using Hlen.
  intros Hk. rewrite <- Hlen. destruct y; [| simpl; apply Nat.lt_0_succ].
  apply elem_of_nil in Hk. destruct Hk.
Qed.

(** One iteration, for a label that occurs in [y]. *)
Lemma fit_body_ok (pc : bool) (st : fit_state) (idx : nat) (k : Z) (old : R) :
  k ∈ y ->
  (idx < length (st_priors st))%nat ->
  (idx < length (st_means st))%nat ->
  st_variances st !! (if pc then idx else 0%nat) = Some old ->
  fit_body X y pc st idx k =
    Ok (FitState (<[idx := class_prior X y k]> (st_priors st))
                 (<[idx := class_mean X y k]> (st_means st))
                 (<[(if pc then idx else 0%nat) := old + class_spread X y k]>
                    (st_variances st))).
Proof.
  intros Hk Hp Hm Hv. unfold fit_body.
  rewrite bool_index_class. simpl.
  pose proof (class_count_pos k Hk) as Hn.
  pose proof (nrows_pos k Hk) as HN.
  rewrite py_div_ok by (apply not_0_INR; lia). simpl.
  rewrite setitem_ok by assumption. simpl.
  unfold np_mean_axis0.
  rewrite traverse_np_div by (apply not_0_INR; lia). simpl.
  rewrite setitem_ok by assumption. simpl.
  rewrite (getitem_ok _ _ (class_mean X y k))
    by (apply list_lookup_insert_eq; assumption).
  simpl.
  rewrite np_div_ok by (apply not_0_INR; nia). simpl.
  rewrite (getitem_ok _ _ old) by assumption. simpl.
  rewrite setitem_ok by (eapply lookup_lt_Some; eassumption).
  reflexivity.
Qed.

(** PER_CLASS: slot [idx] of every array is filled in turn. *)
Lemma fit_loop_per_class (ks : list Z) (ps : list R) (ms : list (list R))
    (vs : list R) (z : list R) :
  (forall k, k ∈ ks -> k ∈ y) ->
  length ms = length ps -> length vs = length ps ->
  for_enumerate (fit_body X y true) (length ps) ks
    (FitState (ps ++ replicate (length ks) 0)
              (ms ++ replicate (length ks) z)
              (vs ++ replicate (length ks) 0))
  = Ok (FitState (ps ++ map (class_prior X y) ks)
                 (ms ++ map (class_mean X y) ks)
                 (vs ++ map (class_spread X y) ks)).
Proof.
  revert ps ms vs. induction ks as [| k ks IH]; intros ps ms vs Hin Hm Hv.
  - reflexivity.
  - simpl for_enumerate.
    rewrite (fit_body_ok true _ (length ps) k 0); simpl.
    + rewrite !insert_app_r_alt by lia.
      rewrite ?Hm, ?Hv, !Nat.sub_diag. simpl.
      rewrite Rplus_0_l.
      rewrite (cons_middle _ ps), (cons_middle _ ms), (cons_middle _ vs).
      rewrite !app_assoc.
      replace (S (length ps)) with (length (ps ++ [class_prior X y k]))
        by (rewrite length_app; simpl; lia).
      rewrite IH.
      * rewrite <- !app_assoc. reflexivity.
      * intros k' Hk'. apply Hin. apply elem_of_cons. tauto.
      * rewrite !length_app. simpl. lia.
      * rewrite !length_app. simpl. lia.
    + apply Hin. apply elem_of_cons. tauto.
    + rewrite length_app. simpl. lia.
    + rewrite length_app. simpl. lia.
    + rewrite <- Hv. apply list_lookup_middle. reflexivity.
Qed.

(** SHARED: slot 0 of [variances] accumulates the spreads. *)
Lemma fit_loop_shared (ks : list Z) (ps : list R) (ms : list (list R))
    (acc : R) (z : list R) :
  (forall k, k ∈ ks -> k ∈ y) ->
  length ms = length ps ->
  exists v,
    for_enumerate (fit_body X y false) (length ps) ks
      (FitState (ps ++ replicate (length ks) 0)
                (ms ++ replicate (length ks) z)
                [acc])
    = Ok (FitState (ps ++ map (class_prior X y) ks)
                   (ms ++ map (class_mean X y) ks)
                   [v])
    /\ v = acc + rsum (map (class_spread X y) ks).
Proof.
  revert ps ms acc. induction ks as [| k ks IH]; intros ps ms acc Hin Hm.
  - exists acc. split; [reflexivity |]. unfold rsum. simpl. lra.
  - simpl for_enumerate.
    rewrite (fit_body_ok false _ (length ps) k acc); simpl.
    + rewrite !insert_app_r_alt by lia.
      rewrite ?Hm, !Nat.sub_diag. simpl.
      rewrite (cons_middle _ ps), (cons_middle _ ms).
      rewrite !app_assoc.
      replace (S (length ps)) with (length (ps ++ [class_prior X y k]))
        by (rewrite length_app; simpl; lia).
      destruct (IH (ps ++ [class_prior X y k]) (ms ++ [class_mean X y k])
                   (acc + class_spread X y k)) as (v & Hrun & Hv).
      * intros k' Hk'. apply Hin. apply elem_of_cons. tauto.
      * rewrite !length_app. simpl. lia.
      * exists v. split.
        -- rewrite Hrun, <- !app_assoc. reflexivity.
        -- rewrite Hv. unfold rsum. simpl. lra.
    + apply Hin. apply elem_of_cons. tauto.
    + rewrite length_app. simpl. lia.
    + rewrite length_app. simpl. lia.
    + reflexivity.
Qed.
End FitLoop.

(** ** Closed form of the fitted model *)

Lemma recognized_I : recognized "I" = true.
Proof. reflexivity. Qed.

Lemma recognized_i : recognized "i" = true.
Proof. reflexivity. Qed.

Lemma recognized_spec (g : string) :
  recognized g = true <-> g = "I"%string \/ g = "i"%string.
Proof.
  unfold recognized. rewrite orb_true_iff, !String.eqb_eq. reflexivity.
Qed.

Lemma fit_per_class_ok (X : matrix) (y : list Z) :
  length y = nrows X -> ncols X <> 0%nat ->
  fit_gaussian_classifier X y "I" =
    Ok {| gtype := "I";
          priors := map (class_prior X y) (np_unique y);
          means := map (class_mean X y) (np_unique y);
          variances := map (fun k => np_clip_min eps_var (class_spread X y k))
                           (np_unique y) |}.
Proof.
  intros Hlen HD. unfold fit_gaussian_classifier.
  rewrite recognized_I. simpl negb. cbv iota.
  change (String.eqb "I" "I") with true. cbv zeta. cbv iota.
  pose proof (fit_loop_per_class X y Hlen HD (np_unique y) [] [] []
                (replicate (ncols X) 0)) as Hloop.
  simpl in Hloop.
  rewrite Hloop; [| intros k Hk; apply np_unique_elem; exact Hk | reflexivity
                    | reflexivity ].
  simpl. rewrite map_map. reflexivity.
Qed.

Lemma fit_shared_ok (X : matrix) (y : list Z) :
  length y = nrows X -> ncols X <> 0%nat -> y <> [] ->
  fit_gaussian_classifier X y "i" =
    Ok {| gtype := "i";
          priors := map (class_prior X y) (np_unique y);
          means := map (class_mean X y) (np_unique y);
          variances :=
            [np_clip_min eps_var
               (rsum (map (class_spread X y) (np_unique y))
                / INR (length (np_unique y)))] |}.
Proof.
  intros Hlen HD Hy. unfold fit_gaussian_classifier.
  rewrite recognized_i. simpl negb. cbv iota.
  change (String.eqb "i" "I") with false. cbv zeta. cbv iota.
  destruct (fit_loop_shared X y Hlen HD (np_unique y) [] [] 0
              (replicate (ncols X) 0)) as (v & Hloop & Hv);
    [intros k Hk; apply np_unique_elem; exact Hk | reflexivity |].
  simpl in Hloop. simpl replicate. rewrite Hloop. simpl.
  assert (HK : INR (length (np_unique y)) <> 0).
  { apply not_0_INR. destruct y as [| a y]; [congruence |].
    assert (Ha : a ∈ np_unique (a :: y)) by (apply np_unique_elem, elem_of_cons; tauto).
    destruct (np_unique (a :: y)); [apply elem_of_nil in Ha; contradiction |].
    simpl. lia. }
  rewrite np_div_ok by exact HK. simpl.
  rewrite Hv, Rplus_0_l. reflexivity.
Qed.

Lemma fit_unrecognized (X : matrix) (y : list Z) (g : string) :
  recognized g = false -> fit_gaussian_classifier X y g = Raise ValueError.
Proof. intros H. unfold fit_gaussian_classifier. rewrite H. reflexivity. Qed.

(** ** The worked example *)

(** Equality of two arrays of reals, entry by entry. *)
Ltac array_eq :=
  repeat match goal with
  | |- @eq (list (list R)) (_ :: _) (_ :: _) => apply (f_equal2 cons)
  | |- @eq (list R) (_ :: _) (_ :: _) => apply (f_equal2 cons)
  | |- @eq (list _) [] [] => reflexivity
  | |- @eq R _ _ => try (simpl; lra); try (simpl; field)
  end.

Lemma model_eq (g : string) (p p' : list R) (m m' : list (list R))
    (v v' : list R) :
  p = p' -> m = m' -> v = v' ->
  Ok {| gtype := g; priors := p; means := m; variances := v |} =
  Ok {| gtype := g; priors := p'; means := m'; variances := v' |}.
Proof. intros -> -> ->. reflexivity. Qed.

Lemma np_unique_example : np_unique y_example = [0; 1]%Z.
Proof. reflexivity. Qed.

Lemma np_clip_min_above (lo x : R) : lo <= x -> np_clip_min lo x = x.
Proof. intros H. unfold np_clip_min. apply Rmax_left. exact H. Qed.

Lemma np_clip_min_ge (lo x : R) : lo <= np_clip_min lo x.
Proof. unfold np_clip_min. apply Rmax_r. Qed.

Lemma class_spread_example_0 : class_spread X_example y_example 0 = 2 / 3.
Proof. unfold class_spread, class_mean, sq_dist, rsum. simpl. field. Qed.

Lemma class_spread_example_1 : class_spread X_example y_example 1 = 2 / 3.
Proof. unfold class_spread, class_mean, sq_dist, rsum. simpl. field. Qed.

(** The three arrays of the example's fit, for both modes. *)
Lemma example_priors :
  map (class_prior X_example y_example) [0; 1]%Z = [1/2; 1/2].
Proof. unfold class_prior; simpl; array_eq. Qed.

Lemma example_means :
  map (class_mean X_example y_example) [0; 1]%Z = [[0]; [4]].
Proof. unfold class_mean; simpl; array_eq. Qed.

Lemma example_shared_mean_spread :
  rsum (map (class_spread X_example y_example) [0; 1]%Z)
  / INR (length [0%Z; 1%Z]) = 2 / 3.
Proof.
  simpl map. unfold rsum. simpl foldr.
  rewrite class_spread_example_0, class_spread_example_1. simpl. field.
Qed.

Lemma fit_example_per_class :
  fit_gaussian_classifier X_example y_example "I" = Ok model_example.
Proof.
  rewrite fit_per_class_ok by (solve [reflexivity | discriminate]).
  rewrite np_unique_example.
  apply model_eq; [apply example_priors | apply example_means |].
  simpl map. rewrite class_spread_example_0, class_spread_example_1.
  rewrite np_clip_min_above by (unfold eps_var; lra). reflexivity.
Qed.

Lemma fit_example_shared :
  fit_gaussian_classifier X_example y_example "i" = Ok model_example_shared.
Proof.
  rewrite fit_shared_ok by (solve [reflexivity | discriminate]).
  rewrite np_unique_example.
  apply model_eq; [apply example_priors | apply example_means |].
  rewrite example_shared_mean_spread.
  rewrite np_clip_min_above by (unfold eps_var; lra). reflexivity.
Qed.

(** C3: the estimator on the worked example: priors [0.5, 0.5], means
    [[0], [4]], PER_CLASS variances [2/3, 2/3] and SHARED variance [2/3]. *)
Theorem fit_example :
  fit_gaussian_classifier X_example y_example "I" =
    Ok {| gtype := "I"; priors := [1/2; 1/2]; means := [[0]; [4]];
          variances := [2/3; 2/3] |}
  /\ fit_gaussian_classifier X_example y_example "i" =
    Ok {| gtype := "i"; priors := [1/2; 1/2]; means := [[0]; [4]];
          variances := [2/3] |}.
Proof.
  assert (Hfloor : forall v, v = 2 / 3 -> np_clip_min eps_var v = 2 / 3).
  { intros v ->. apply np_clip_min_above. unfold eps_var. lra. }
  split.
  - (* PER_CLASS: every class keeps its own spread *)
    rewrite fit_per_class_ok by (solve [reflexivity | discriminate]).
    rewrite np_unique_example.
    apply model_eq; [apply example_priors | apply example_means |].
    simpl map.
    rewrite (Hfloor _ class_spread_example_0).
    rewrite (Hfloor _ class_spread_example_1).
    reflexivity.
  - (* SHARED: the two equal spreads are averaged *)
    rewrite fit_shared_ok by (solve [reflexivity | discriminate]).
    rewrite np_unique_example.
    apply model_eq; [apply example_priors | apply example_means |].
    rewrite (Hfloor _ example_shared_mean_spread).
    reflexivity.
Qed.

(** ** Degenerate datasets *)

Lemma fit_per_class_empty (X : matrix) :
  fit_gaussian_classifier X [] "I" =
    Ok {| gtype := "I"; priors := []; means := []; variances := [] |}.
Proof. reflexivity. Qed.

Lemma fit_shared_empty (X : matrix) :
  fit_gaussian_classifier X [] "i" = NonReal.
Proof.
  unfold fit_gaussian_classifier. simpl.
  rewrite np_div_zero. reflexivity.
Qed.

Lemma col_sum_0 (Xk : list (list R)) : col_sum 0 Xk = [].
Proof.
  unfold col_sum. simpl. induction Xk as [| r Xk IH]; simpl; [reflexivity |].
  rewrite IH. apply zip_with_nil_r.
Qed.

Lemma np_unique_nonempty (y : list Z) :
  y <> [] -> exists k ks, np_unique y = k :: ks /\ k ∈ y.
Proof.
  intros Hy. destruct y as [| a y]; [congruence |].
  destruct (np_unique (a :: y)) as [| k ks] eqn:E.
  - assert (Ha : a ∈ np_unique (a :: y))
      by (apply np_unique_elem, elem_of_cons; tauto).
    rewrite E in Ha. apply elem_of_nil in Ha. contradiction.
  - exists k, ks. split; [reflexivity |].
    apply np_unique_elem. rewrite E. apply elem_of_cons. tauto.
Qed.

Lemma fit_body_zero_cols (X : matrix) (y : list Z) (pc : bool)
    (st : fit_state) (k : Z) :
  length y = nrows X -> ncols X = 0%nat -> k ∈ y ->
  (0 < length (st_priors st))%nat -> (0 < length (st_means st))%nat ->
  fit_body X y pc st 0 k = NonReal.
Proof.
  intros Hlen HD Hk Hp Hm. unfold fit_body.
  rewrite bool_index_class by assumption. simpl.
  pose proof (nrows_pos X y Hlen k Hk) as HN.
  rewrite py_div_ok by (apply not_0_INR; lia). simpl.
  rewrite setitem_ok by assumption. simpl.
  unfold np_mean_axis0. rewrite HD, col_sum_0. simpl.
  rewrite setitem_ok by assumption. simpl.
  rewrite (getitem_ok _ _ []) by (apply list_lookup_insert_eq; assumption).
  simpl. rewrite Nat.mul_0_r. simpl INR. rewrite np_div_zero. reflexivity.
Qed.

Lemma fit_zero_cols (X : matrix) (y : list Z) (g : string) :
  length y = nrows X -> ncols X = 0%nat -> y <> [] -> recognized g = true ->
  fit_gaussian_classifier X y g = NonReal.
Proof.
  intros Hlen HD Hy Hg. unfold fit_gaussian_classifier. rewrite Hg. simpl negb.
  cbv iota zeta.
  destruct (np_unique_nonempty y Hy) as (k & ks & -> & Hk).
  simpl for_enumerate.
  rewrite fit_body_zero_cols; try assumption; try (simpl; lia).
  reflexivity.
Qed.

(** ** Priors add up *)

Lemma compress_mask_cons (k a : Z) (ys : list Z) (r : list R)
    (rs : list (list R)) :
  length (compress (mask_eq (a :: ys) k) (r :: rs)) =
  ((if (k =? a)%Z then 1 else 0) + length (compress (mask_eq ys k) rs))%nat.
Proof. simpl. destruct (k =? a)%Z; reflexivity. Qed.

Lemma sum_indicator (a : Z) (ks : list Z) :
  NoDup ks -> a ∈ ks ->
  sum_list (map (fun k => if (k =? a)%Z then 1%nat else 0%nat) ks) = 1%nat.
Proof.
  induction 1 as [| k ks Hk Hnd IH]; intros Ha.
  - apply elem_of_nil in Ha. contradiction.
  - simpl. destruct (Z.eqb_spec k a) as [-> | Hne].
    + assert (Hz : sum_list (map (fun k => if (k =? a)%Z then 1%nat else 0%nat) ks) = 0%nat).
      { clear IH Hnd Ha. induction ks as [| k ks IH]; [reflexivity |].
        simpl. apply not_elem_of_cons in Hk. destruct Hk as [Hne Hk].
        destruct (Z.eqb_spec k a); [congruence |]. simpl. auto. }
      lia.
    + apply elem_of_cons in Ha. destruct Ha as [-> | Ha]; [congruence |].
      rewrite IH by assumption. reflexivity.
Qed.

Lemma sum_list_map_plus {A} (f g : A -> nat) (l : list A) :
  sum_list (map (fun a => (f a + g a)%nat) l) =
  (sum_list (map f l) + sum_list (map g l))%nat.
Proof. induction l as [| a l IH]; simpl; [reflexivity | lia]. Qed.

Lemma class_counts_total (ks : list Z) (ys : list Z) (rs : list (list R)) :
  NoDup ks -> length ys = length rs -> (forall a, a ∈ ys -> a ∈ ks) ->
  sum_list (map (fun k => length (compress (mask_eq ys k) rs)) ks) = length ys.
Proof.
  intros Hnd. revert rs. induction ys as [| a ys IH]; intros rs Hl Hin.
  - simpl. induction ks as [| k ks IHk]; [reflexivity |].
    simpl. apply NoDup_cons in Hnd. destruct Hnd as [_ Hnd].
    rewrite IHk; [reflexivity | assumption | intros ? H; apply elem_of_nil in H; contradiction].
  - destruct rs as [| r rs]; [discriminate |].
    erewrite map_ext by (intros; apply compress_mask_cons).
    rewrite sum_list_map_plus.
    rewrite sum_indicator; [| assumption | apply Hin, elem_of_cons; tauto].
    rewrite IH; [reflexivity | simpl in Hl; lia |].
    intros b Hb. apply Hin, elem_of_cons. tauto.
Qed.

Lemma rsum_INR_div (c : Z -> nat) (n : R) (ks : list Z) :
  rsum (map (fun k => INR (c k) / n) ks) = INR (sum_list (map c ks)) / n.
Proof.
  unfold rsum. induction ks as [| k ks IH]; simpl.
  - unfold Rdiv. lra.
  - rewrite IH, plus_INR. unfold Rdiv. lra.
Qed.

Lemma priors_sum (X : matrix) (y : list Z) :
  length y = nrows X -> y <> [] ->
  rsum (map (class_prior X y) (np_unique y)) = 1.
Proof.
  intros Hlen Hy. unfold class_prior, class_rows.
  rewrite (rsum_INR_div (fun k => length (compress (mask_eq y k) (rows X)))).
  rewrite class_counts_total.
  - rewrite Hlen. apply Rinv_r, not_0_INR.
    rewrite <- Hlen. destruct y; [congruence | simpl; lia].
  - apply np_unique_NoDup.
  - exact Hlen.
  - intros a Ha. apply np_unique_elem. exact Ha.
Qed.

(** ** Which exceptions the estimator can raise *)

Lemma raises_only_bind {A B} (P : exn -> Prop) (m : outcome A)
    (f : A -> outcome B) :
  raises_only P m -> (forall a, raises_only P (f a)) ->
  raises_only P (m ≫= f).
Proof.
  intros Hm Hf e. destruct m as [a | e' |]; simpl.
  - apply Hf.
  - intros [= ->]. apply Hm. reflexivity.
  - discriminate.
Qed.

Lemma raises_only_Ok {A} (P : exn -> Prop) (a : A) : raises_only P (Ok a).
Proof. intros e. discriminate. Qed.

Lemma raises_only_NonReal {A} (P : exn -> Prop) : raises_only P (@NonReal A).
Proof. intros e. discriminate. Qed.

Lemma raises_only_np_div (P : exn -> Prop) (a b : R) : raises_only P (np_div a b).
Proof.
  unfold np_div. destruct (np_true_divide a b);
    auto using raises_only_Ok, raises_only_NonReal.
Qed.

Lemma raises_only_py_div (a b : R) :
  raises_only (fun e => e = ZeroDivisionError) (py_div a b).
Proof.
  unfold py_div. destruct (decide (b = 0)) as [Hb | Hb]; intros e; [| discriminate].
  intros [= <-]. reflexivity.
Qed.

Lemma raises_only_getitem {A} (l : list A) (i : nat) :
  raises_only (fun e => e = IndexError) (getitem l i).
Proof.
  unfold getitem. destruct (l !! i); intros e; [discriminate |].
  intros [= <-]. reflexivity.
Qed.

Lemma raises_only_setitem {A} (l : list A) (i : nat) (v : A) :
  raises_only (fun e => e = IndexError) (setitem l i v).
Proof.
  unfold setitem. destruct (decide (i < length l)%nat) as [Hi | Hi]; intros e; [discriminate |].
  intros [= <-]. reflexivity.
Qed.

Lemma raises_only_bool_index {A} (l : list A) (mask : list bool) :
  raises_only (fun e => e = IndexError) (bool_index l mask).
Proof.
  unfold bool_index. destruct (decide (length mask = length l)) as [Hl | Hl]; intros e;
    [discriminate |].
  intros [= <-]. reflexivity.
Qed.

Lemma raises_only_weaken {A} (P Q : exn -> Prop) (o : outcome A) :
  (forall e, P e -> Q e) -> raises_only P o -> raises_only Q o.
Proof. intros HPQ Ho e He. apply HPQ, Ho, He. Qed.

Lemma raises_only_traverse {A B} (P : exn -> Prop) (f : A -> outcome B)
    (l : list A) :
  (forall a, raises_only P (f a)) -> raises_only P (traverse f l).
Proof.
  intros Hf. induction l as [| a l IH]; simpl; [apply raises_only_Ok |].
  apply raises_only_bind; [apply Hf |]. intros b.
  apply raises_only_bind; [exact IH |]. intros bs. apply raises_only_Ok.
Qed.

Lemma raises_only_for_enumerate {St A} (P : exn -> Prop)
    (body : St -> nat -> A -> outcome St) (i : nat) (l : list A) (s : St) :
  (forall s i a, raises_only P (body s i a)) ->
  raises_only P (for_enumerate body i l s).
Proof.
  intros Hb. revert i s. induction l as [| a l IH]; intros i s; simpl.
  - apply raises_only_Ok.
  - apply raises_only_bind; [apply Hb |]. intros s'. apply IH.
Qed.

Ltac not_value_error :=
  first
    [ apply raises_only_Ok
    | apply raises_only_np_div
    | eapply raises_only_weaken; [| apply raises_only_py_div];
      intros ? ->; discriminate
    | eapply raises_only_weaken; [| apply raises_only_getitem];
      intros ? ->; discriminate
    | eapply raises_only_weaken; [| apply raises_only_setitem];
      intros ? ->; discriminate
    | eapply raises_only_weaken; [| apply raises_only_bool_index];
      intros ? ->; discriminate ].

Lemma fit_body_no_ValueError (X : matrix) (y : list Z) (pc : bool)
    (st : fit_state) (idx : nat) (k : Z) :
  raises_only not_ValueError (fit_body X y pc st idx k).
Proof.
  unfold fit_body, np_mean_axis0, not_ValueError.
  repeat (apply raises_only_bind; [| intros ?]);
    try not_value_error.
  apply raises_only_traverse. intros s. apply raises_only_np_div.
Qed.

Lemma fit_recognized_no_ValueError (X : matrix) (y : list Z) (g : string) :
  recognized g = true -> fit_gaussian_classifier X y g <> Raise ValueError.
Proof.
  intros Hg Hfit.
  assert (H : raises_only not_ValueError (fit_gaussian_classifier X y g)).
  { unfold fit_gaussian_classifier. rewrite Hg. simpl negb. cbv iota zeta.
    apply raises_only_bind.
    - apply raises_only_for_enumerate. intros. apply fit_body_no_ValueError.
    - intros st. apply raises_only_bind; [| intros; apply raises_only_Ok].
      destruct (String.eqb g "I"); [apply raises_only_Ok |].
      unfold not_ValueError.
      repeat (apply raises_only_bind; [| intros ?]); not_value_error. }
  exact (H _ Hfit eq_refl).
Qed.

(** ** Claims about the estimator *)

Lemma fit_recognized_cases (X : matrix) (y : list Z) (g : string) :
  recognized g = true -> length y = nrows X ->
  fit_gaussian_classifier X y g = NonReal
  \/ exists m, fit_gaussian_classifier X y g = Ok m /\ gtype m = g.
Proof.
  intros Hg Hlen.
  destruct (decide (y = [])) as [-> | Hy].
  - apply recognized_spec in Hg. destruct Hg as [-> | ->].
    + right. rewrite fit_per_class_empty. eauto.
    + left. apply fit_shared_empty.
  - destruct (decide (ncols X = 0%nat)) as [HD | HD].
    + left. apply fit_zero_cols; assumption.
    + right. apply recognized_spec in Hg. destruct Hg as [-> | ->].
      * rewrite fit_per_class_ok by assumption. eauto.
      * rewrite fit_shared_ok by assumption. eauto.
Qed.

Lemma recognized_false (g : string) :
  recognized g = false <-> g <> "I"%string /\ g <> "i"%string.
Proof.
  unfold recognized. rewrite orb_false_iff, !String.eqb_neq. reflexivity.
Qed.

(** C6: the estimator raises [ValueError] (the spec's
    UnsupportedCovarianceMode) exactly when the tag is neither "I" nor "i".
    For a recognized tag and a labeled dataset it raises nothing, and on a
    non-empty dataset with at least one column it returns a model carrying
    that tag (on an empty dataset or without a column numpy goes on with
    NaN, which the embedding reports as [NonReal]). *)
Theorem fit_unsupported_mode_iff (X : matrix) (y : list Z) (g : string) :
  (fit_gaussian_classifier X y g = Raise ValueError
   <-> g <> "I"%string /\ g <> "i"%string)
  /\ (g = "I"%string \/ g = "i"%string -> length y = nrows X ->
      (forall e, fit_gaussian_classifier X y g <> Raise e)
      /\ (y <> [] -> ncols X <> 0%nat ->
          exists m, fit_gaussian_classifier X y g = Ok m /\ gtype m = g)).
Proof.
  split.
  - rewrite <- recognized_false. split.
    + intros Hfit. destruct (recognized g) eqn:Hg; [| reflexivity].
      exfalso. exact (fit_recognized_no_ValueError X y g Hg Hfit).
    + apply fit_unrecognized.
  - intros Hg Hlen. apply recognized_spec in Hg. split.
    + intros e. destruct (fit_recognized_cases X y g Hg Hlen) as [-> | (m & -> & _)];
        discriminate.
    + intros Hy HD. apply recognized_spec in Hg. destruct Hg as [-> | ->].
      * rewrite fit_per_class_ok by assumption. eauto.
      * rewrite fit_shared_ok by assumption. eauto.
Qed.

Lemma fit_unsupported_mode_iff_witness :
  fit_gaussian_classifier X_example y_example "full" = Raise ValueError
  /\ exists m, fit_gaussian_classifier X_example y_example "i" = Ok m
               /\ gtype m = "i"%string.
Proof.
  destruct (fit_unsupported_mode_iff X_example y_example "full") as [[_ Hraise] _].
  destruct (fit_unsupported_mode_iff X_example y_example "i") as [_ Hok].
  split.
  - apply Hraise. split; discriminate.
  - apply Hok; [right; reflexivity | reflexivity | discriminate | discriminate].
Defined.

(** C1: in SHARED mode the single variance of the fitted model is
    max((sum over classes of v_k) / K, 1e-9), the unweighted mean of the
    per-class spreads [class_spread], floored: whenever the estimator
    returns a model on a labeled dataset, and it does return one on every
    non-empty dataset with at least one column. *)
Theorem shared_variance_unweighted_mean (X : matrix) (y : list Z) :
  wf_dataset X y ->
  (forall m, fit_gaussian_classifier X y "i" = Ok m ->
     variances m =
       [Rmax (rsum (map (class_spread X y) (np_unique y))
              / INR (length (np_unique y))) 1e-9])
  /\ (y <> [] -> ncols X <> 0%nat ->
      exists m, fit_gaussian_classifier X y "i" = Ok m).
Proof.
  intros [_ Hlen]. split.
  - intros m Hfit.
    destruct (decide (y = [])) as [-> | Hy];
      [rewrite fit_shared_empty in Hfit; discriminate |].
    destruct (decide (ncols X = 0%nat)) as [HD | HD];
      [rewrite fit_zero_cols in Hfit by (assumption || reflexivity); discriminate |].
    rewrite fit_shared_ok in Hfit by assumption.
    injection Hfit as <-. reflexivity.
  - intros Hy HD. rewrite fit_shared_ok by assumption. eauto.
Qed.

Lemma wf_example : wf_dataset X_example y_example.
Proof.
  split; [| reflexivity].
  unfold wf_matrix. simpl. repeat constructor.
Qed.

Lemma shared_variance_unweighted_mean_witness :
  exists m, fit_gaussian_classifier X_example y_example "i" = Ok m
   /\ variances m =
       [Rmax (rsum (map (class_spread X_example y_example) (np_unique y_example))
              / INR (length (np_unique y_example))) 1e-9].
Proof.
  destruct (shared_variance_unweighted_mean X_example y_example wf_example)
    as [Hform Hret].
  destruct Hret as [m Hm]; [discriminate | discriminate |].
  exists m. split; [exact Hm | exact (Hform m Hm)].
Defined.

(** C5, as amended: on a non-empty labeled dataset with at least one
    column and a recognized mode, the estimator returns a model whose
    priors sum to 1 (hence within 1e-9 of it) and whose variances are all
    at least 1e-9. *)
Theorem fit_invariants (X : matrix) (y : list Z) (g : string) :
  wf_dataset X y -> y <> [] -> ncols X <> 0%nat ->
  g = "I"%string \/ g = "i"%string ->
  exists m, fit_gaussian_classifier X y g = Ok m
    /\ rsum (priors m) = 1
    /\ Rabs (rsum (priors m) - 1) <= 1e-9
    /\ Forall (fun v => 1e-9 <= v) (variances m).
Proof.
  intros [_ Hlen] Hy HD Hg.
  pose proof (priors_sum X y Hlen Hy) as Hsum.
  assert (Habs : Rabs (rsum (map (class_prior X y) (np_unique y)) - 1) <= 1e-9).
  { rewrite Hsum. replace (1 - 1) with 0 by lra. rewrite Rabs_R0. lra. }
  destruct Hg as [-> | ->].
  - rewrite fit_per_class_ok by assumption.
    eexists. split; [reflexivity |]. simpl.
    repeat split; try assumption.
    apply Forall_map, Forall_forall. intros k _. simpl.
    apply (np_clip_min_ge eps_var).
  - rewrite fit_shared_ok by assumption.
    eexists. split; [reflexivity |]. simpl.
    repeat split; try assumption.
    constructor; [apply (np_clip_min_ge eps_var) | constructor].
Qed.

Lemma fit_invariants_witness :
  exists m, fit_gaussian_classifier X_example y_example "I" = Ok m
    /\ rsum (priors m) = 1
    /\ Rabs (rsum (priors m) - 1) <= 1e-9
    /\ Forall (fun v => 1e-9 <= v) (variances m).
Proof.
  apply (fit_invariants X_example y_example "I" wf_example);
    [discriminate | discriminate | left; reflexivity].
Defined.

(** C5 as stated fails on the empty dataset (shape (0, 1), no labels): the
    estimator returns a model with no class, whose priors sum to 0. *)
Lemma fit_empty_dataset_priors :
  wf_dataset (Matrix 1 []) []
  /\ exists m, fit_gaussian_classifier (Matrix 1 []) [] "I" = Ok m
       /\ ~ Rabs (rsum (priors m) - 1) <= 1e-9.
Proof.
  split; [split; [constructor | reflexivity] |].
  eexists. split; [apply fit_per_class_empty |].
  simpl. unfold rsum. simpl.
  replace (0 - 1) with (- (1)) by lra. rewrite Rabs_Ropp, Rabs_R1. lra.
Qed.

(** The SHARED variance is not the pooled one: on classes of unequal size
    the unweighted mean of the spreads (1 and 0) is 1/2, while all squared
    deviations over all six samples give 1/3. *)
Lemma shared_variance_not_pooled :
  fit_gaussian_classifier X_unbalanced y_unbalanced "i" =
    Ok {| gtype := "i"; priors := [1/3; 2/3]; means := [[1]; [5]];
          variances := [1/2] |}
  /\ pooled_variance X_unbalanced y_unbalanced = 1/3.
Proof.
  assert (Hu : np_unique y_unbalanced = [0; 1]%Z) by reflexivity.
  assert (H0 : class_spread X_unbalanced y_unbalanced 0 = 1)
    by (unfold class_spread, class_mean, sq_dist, rsum; simpl; field).
  assert (H1 : class_spread X_unbalanced y_unbalanced 1 = 0)
    by (unfold class_spread, class_mean, sq_dist, rsum; simpl; field).
  split.
  - rewrite fit_shared_ok by (solve [reflexivity | discriminate]).
    rewrite Hu. apply model_eq.
    + unfold class_prior; simpl; array_eq.
    + unfold class_mean; simpl; array_eq.
    + simpl map. unfold rsum. simpl foldr. rewrite H0, H1.
      replace ((1 + (0 + 0)) / INR (length [0%Z; 1%Z])) with (1 / 2)
        by (simpl; field).
      rewrite np_clip_min_above by (unfold eps_var; lra). reflexivity.
  - unfold pooled_variance. rewrite Hu.
    unfold class_mean, sq_dist, rsum. simpl. field.
Qed.

(** ** The density evaluator *)

Lemma py_pow_half_pos (b : R) (D : nat) :
  0 < b -> py_pow_half b D = PyFloat (Rpower b (INR D / 2)).
Proof.
  intros Hb. unfold py_pow_half.
  destruct (decide (0 < b)); [reflexivity | contradiction].
Qed.

Lemma Rpower_pos (b e : R) : 0 < Rpower b e.
Proof. unfold Rpower. apply exp_pos. Qed.

Lemma two_pi_pos (s : R) : 0 < s -> 0 < 2 * PI * s.
Proof. intros Hs. pose proof PI_RGT_0. nra. Qed.

Lemma broadcast_sub_same (X : matrix) (mu : list R) :
  length mu = ncols X ->
  broadcast_sub X mu =
    Ok (Matrix (ncols X) (map (fun r => zip_with Rminus r mu) (rows X))).
Proof.
  intros H. unfold broadcast_sub.
  destruct (decide (length mu = ncols X)); [reflexivity | contradiction].
Qed.

Lemma getitem_sigma2 (model : GaussianClassifier) (k : nat) :
  (if String.eqb (gtype model) "i" then getitem (variances model) 0
   else getitem (variances model) k)
  = match sigma2_of model k with
    | Some s => Ok s
    | None => Raise IndexError
    end.
Proof. unfold sigma2_of, getitem. destruct (String.eqb _ _); reflexivity. Qed.


Lemma traverse_map_np_div {A} (f : A -> R) (c : R) (l : list A) :
  c <> 0 ->
  traverse (fun a => np_div (f a) c) l = Ok (map (fun a => f a / c) l).
Proof.
  intros Hc. induction l as [| a l IH]; simpl; [reflexivity |].
  rewrite np_div_ok by exact Hc. simpl. rewrite IH. reflexivity.
Qed.

Lemma class_density_ok (X : matrix) (model : GaussianClassifier) (k : nat)
    (mu : list R) (s : R) :
  means model !! k = Some mu -> length mu = ncols X ->
  sigma2_of model k = Some s -> 0 < s ->
  class_density X model k = Ok (map (gauss (ncols X) mu s) (rows X)).
Proof.
  intros Hmu Hlen Hs Hpos. unfold class_density.
  rewrite (getitem_ok _ _ mu Hmu). simpl.
  rewrite getitem_sigma2, Hs. simpl.
  rewrite py_pow_half_pos by (apply two_pi_pos, Hpos).
  cbn [py_div_num]. rewrite py_div_ok by (apply Rgt_not_eq, Rpower_pos). simpl.
  rewrite broadcast_sub_same by exact Hlen. simpl.
  rewrite traverse_map_np_div by (apply Rgt_not_eq, Hpos). simpl.
  rewrite !map_map. reflexivity.
Qed.



Lemma for_enumerate_preserves {St A} (I : St -> Prop)
    (body : St -> nat -> A -> outcome St) (l : list A) :
  (forall s i a s', I s -> body s i a = Ok s' -> I s') ->
  forall i s s', I s -> for_enumerate body i l s = Ok s' -> I s'.
Proof.
  intros Hb. induction l as [| a l IH]; intros i s s' Hs Hrun; simpl in Hrun.
  - injection Hrun as <-. exact Hs.
  - apply bind_Ok in Hrun. destruct Hrun as (s1 & H1 & Hrun).
    eapply IH; [| exact Hrun]. eapply Hb; eassumption.
Qed.








Lemma Forall_zip_mult_nonneg (a b : list R) :
  Forall (fun v => 0 <= v) a -> Forall (fun v => 0 <= v) b ->
  Forall (fun v => 0 <= v) (zip_with Rmult a b).
Proof.
  intros Ha. revert b. induction Ha as [| x a Hx Ha IH]; intros b Hb.
  - constructor.
  - destruct Hb as [| y b Hy Hb]; simpl; constructor.
    + apply Rmult_le_pos; assumption.
    + apply IH, Hb.
Qed.

(** ** The worked example, evaluated at the midpoint *)

Lemma exp_INR (n : nat) : exp (INR n) = exp 1 ^ n.
Proof.
  induction n as [| n IH]; [simpl; apply exp_0 |].
  rewrite S_INR, exp_plus, IH. simpl. ring.
Qed.

Lemma exp_1_ge_2 : 2 <= exp 1.
Proof. pose proof (exp_ineq1_le 1). lra. Qed.

Lemma sqrt_two_pi_bounds (s : R) :
  0 < s -> 1 <= 2 * PI * s <= 9 -> 1 <= Rpower (2 * PI * s) (INR 1 / 2) <= 3.
Proof.
  intros Hs [Hlo Hhi].
  replace (INR 1 / 2) with (/ 2) by (simpl; lra).
  rewrite Rpower_sqrt by lra. split.
  - rewrite <- sqrt_1. apply sqrt_le_1; lra.
  - replace 3 with (sqrt (3 * 3)) by (apply sqrt_square; lra).
    apply sqrt_le_1; lra.
Qed.

Lemma PI_gt_3 : 3 < PI.
Proof. pose proof PI2_3_2. lra. Qed.

Lemma gauss_mid_sym : gauss 1 [4] (2/3) [2] = gauss 1 [0] (2/3) [2].
Proof.
  unfold gauss. f_equal. f_equal. unfold rsum. simpl. lra.
Qed.

Lemma gauss_mid_lower : 1e-12 <= gauss 1 [0] (2/3) [2].
Proof.
  unfold gauss.
  replace (- 0.5 * rsum (map (fun d => d * d) (zip_with Rminus [2] [0])) / (2 / 3))
    with (- INR 3) by (unfold rsum; simpl; lra).
  rewrite exp_Ropp, exp_INR.
  pose proof PI_4. pose proof PI_gt_3.
  destruct (sqrt_two_pi_bounds (2/3)) as [Hlo Hhi]; [lra | lra |].
  set (p := Rpower (2 * PI * (2 / 3)) (INR 1 / 2)) in *.
  pose proof exp_le_3 as He. pose proof exp_1_ge_2 as He2.
  assert (Hp : / 3 <= 1 / p).
  { unfold Rdiv. rewrite Rmult_1_l. apply Rinv_le_contravar; lra. }
  assert (He3 : / 27 <= / exp 1 ^ 3).
  { apply Rinv_le_contravar; [apply pow_lt; lra |].
    replace 27 with (3 ^ 3) by lra. apply pow_incr. lra. }
  assert (0 < / exp 1 ^ 3) by (apply Rinv_0_lt_compat, pow_lt; lra).
  nra.
Qed.

Lemma pdf_table_example (x : R) (model : GaussianClassifier) :
  model = model_example \/ model = model_example_shared ->
  for_range
    (fun M k => col ← class_density (X_query x) model k; set_column M k col)
    2 (replicate 1 (replicate 2 0))
  = Ok [[gauss 1 [0] (2/3) [x]; gauss 1 [4] (2/3) [x]]].
Proof.
  intros [-> | ->]; unfold for_range; simpl seq; simpl for_enumerate.
  - rewrite (class_density_ok (X_query x) model_example 0 [0] (2/3));
      [| reflexivity | reflexivity | reflexivity | lra].
    simpl.
    rewrite (class_density_ok (X_query x) model_example 1 [4] (2/3));
      [| reflexivity | reflexivity | reflexivity | lra].
    reflexivity.
  - rewrite (class_density_ok (X_query x) model_example_shared 0 [0] (2/3));
      [| reflexivity | reflexivity | reflexivity | lra].
    simpl.
    rewrite (class_density_ok (X_query x) model_example_shared 1 [4] (2/3));
      [| reflexivity | reflexivity | reflexivity | lra].
    reflexivity.
Qed.

Lemma pdf_table_mid (model : GaussianClassifier) :
  model = model_example \/ model = model_example_shared ->
  for_range
    (fun M k => col ← class_density X_mid model k; set_column M k col)
    2 (replicate 1 (replicate 2 0))
  = Ok [[gauss 1 [0] (2/3) [2]; gauss 1 [0] (2/3) [2]]].
Proof.
  intros Hm. unfold X_mid. rewrite (pdf_table_example 2 model Hm).
  rewrite gauss_mid_sym. reflexivity.
Qed.

Lemma pdf_result_eq (e e' : list R) (c c' p p' j j' : list (list R)) :
  e = e' -> c = c' -> p = p' -> j = j' ->
  Ok {| px := e; px_given_c := c; p_c_given_x := p; px_and_c := j |} =
  Ok {| px := e'; px_given_c := c'; p_c_given_x := p'; px_and_c := j' |}.
Proof. intros -> -> -> ->. reflexivity. Qed.

Lemma gaussian_pdf_mid (model : GaussianClassifier) :
  model = model_example \/ model = model_example_shared ->
  gaussian_pdf X_mid model =
    Ok {| px := [gauss 1 [0] (2/3) [2]];
          px_given_c := [[gauss 1 [0] (2/3) [2]; gauss 1 [0] (2/3) [2]]];
          p_c_given_x := [[1/2; 1/2]];
          px_and_c := [[gauss 1 [0] (2/3) [2] * (1/2);
                        gauss 1 [0] (2/3) [2] * (1/2)]] |}.
Proof.
  intros Hm. unfold gaussian_pdf.
  replace (length (priors model)) with 2%nat by (destruct Hm as [-> | ->]; reflexivity).
  replace (nrows X_mid) with 1%nat by reflexivity.
  rewrite (pdf_table_mid model Hm).
  replace (priors model) with [1/2; 1/2] by (destruct Hm as [-> | ->]; reflexivity).
  pose proof gauss_mid_lower as Hlo.
  set (a := gauss 1 [0] (2/3) [2]) in *.
  assert (Hdot : dot [a; a] [1/2; 1/2] = a) by (unfold dot, rsum; simpl; lra).
  simpl. rewrite Hdot.
  rewrite (np_clip_min_above eps_px a) by (unfold eps_px; exact Hlo).
  apply pdf_result_eq; try reflexivity.
  assert (a <> 0) by lra.
  apply (f_equal2 cons); [| reflexivity].
  apply (f_equal2 cons); [field; assumption |].
  apply (f_equal2 cons); [field; assumption | reflexivity].
Qed.

Lemma argmax_tie : argmax [1/2; 1/2] = Ok 0%nat.
Proof.
  unfold argmax. simpl.
  destruct (decide (1/2 < 1/2)) as [H | H]; [lra | reflexivity].
Qed.

(** C4: with the model fitted from the worked example (in either mode)
    the query x = 2 has posterior exactly [1/2, 1/2], and the scorer's
    argmax picks class 0: a left-to-right scan keeps the first maximum. *)
Theorem midpoint_posterior_and_label
    (roc_curve : list Z -> list R -> outcome (list R * list R))
    (auc : list R -> list R -> outcome R)
    (model : GaussianClassifier) (g : string) (label : Z) :
  fit_gaussian_classifier X_example y_example g = Ok model ->
  (exists r, gaussian_pdf X_mid model = Ok r /\ p_c_given_x r = [[1/2; 1/2]])
  /\ argmax [1/2; 1/2] = Ok 0%nat
  /\ (exists res, evaluate_classifier roc_curve auc X_mid [label] model = Ok res
        /\ posteriors res = [[1/2; 1/2]] /\ y_pred res = [0%nat]).
Proof.
  intros Hfit.
  assert (Hm : model = model_example \/ model = model_example_shared).
  { destruct (recognized g) eqn:Hg;
      [| rewrite fit_unrecognized in Hfit by exact Hg; discriminate].
    apply recognized_spec in Hg. destruct Hg as [-> | ->].
    - left. rewrite fit_example_per_class in Hfit. congruence.
    - right. rewrite fit_example_shared in Hfit. congruence. }
  split; [| split].
  - rewrite (gaussian_pdf_mid model Hm). eauto.
  - apply argmax_tie.
  - unfold evaluate_classifier. rewrite (gaussian_pdf_mid model Hm).
    replace (length (priors model)) with 2%nat
      by (destruct Hm as [-> | ->]; reflexivity).
    cbn [mbind outcome_bind p_c_given_x].
    unfold argmax_axis1.
    destruct (decide (2%nat = 0%nat)) as [H | _]; [discriminate |].
    cbn [traverse]. rewrite argmax_tie. simpl.
    eexists. split; [reflexivity |]. split; reflexivity.
Qed.

Lemma midpoint_posterior_and_label_witness :
  (exists r, gaussian_pdf X_mid model_example = Ok r
     /\ p_c_given_x r = [[1/2; 1/2]])
  /\ argmax [1/2; 1/2] = Ok 0%nat
  /\ (exists res,
        evaluate_classifier (fun _ _ => Ok ([], [])) (fun _ _ => Ok 0)
          X_mid [0%Z] model_example = Ok res
        /\ posteriors res = [[1/2; 1/2]] /\ y_pred res = [0%nat]).
Proof.
  apply (midpoint_posterior_and_label (fun _ _ => Ok ([], [])) (fun _ _ => Ok 0)
           model_example "I" 0%Z).
  exact fit_example_per_class.
Defined.

(** ** Claims about the density evaluator *)

Lemma posterior_row_table (X : matrix) (model : GaussianClassifier)
    (r : pdf_result) (q : nat) (post : list R) :
  gaussian_pdf X model = Ok r -> p_c_given_x r !! q = Some post ->
  exists cc, px_given_c r !! q = Some cc.
Proof.
  unfold gaussian_pdf. intros H Hq.
  apply bind_Ok in H. destruct H as (pxc & _ & H).
  injection H as <-. simpl in *.
  apply lookup_zip_with_Some in Hq. destruct Hq as (j & e & _ & Hj & _).
  apply list_lookup_fmap_Some in Hj. destruct Hj as (cc & _ & Hcc). eauto.
Qed.









(** ** The row-normalized confusion matrix *)

Lemma sum_list_zero (row : list nat) :
  sum_list row = 0%nat <-> Forall (fun c => c = 0%nat) row.
Proof.
  induction row as [| c row IH]; simpl.
  - split; [constructor | reflexivity].
  - rewrite Forall_cons, <- IH. lia.
Qed.

Lemma np_true_divide_counts (c s : nat) :
  s <> 0%nat -> nan_to_num (np_true_divide (INR c) (INR s)) = INR c / INR s.
Proof.
  intros Hs. unfold np_true_divide.
  destruct (decide (INR s = 0)) as [H0 | _]; [| reflexivity].
  exfalso. exact (not_0_INR s Hs H0).
Qed.

Lemma np_true_divide_0_0 : nan_to_num (np_true_divide (INR 0) (INR 0)) = 0.
Proof.
  unfold np_true_divide. simpl.
  destruct (decide (0 = 0)) as [_ | H]; [| contradiction].
  destruct (decide (0 = 0)) as [_ | H]; [reflexivity | contradiction].
Qed.

Lemma rsum_map_INR_div (s : R) (row : list nat) :
  rsum (map (fun c => INR c / s) row) = INR (sum_list row) / s.
Proof.
  unfold rsum. induction row as [| c row IH]; simpl.
  - unfold Rdiv. lra.
  - rewrite IH, plus_INR. unfold Rdiv. lra.
Qed.

Lemma normalize_row_nonzero (row : list nat) :
  sum_list row <> 0%nat -> rsum (normalize_row row) = 1.
Proof.
  intros Hs. unfold normalize_row.
  erewrite map_ext by (intros c; apply np_true_divide_counts, Hs).
  rewrite rsum_map_INR_div. apply Rinv_r, not_0_INR, Hs.
Qed.

Lemma normalize_row_zero (row : list nat) :
  sum_list row = 0%nat -> Forall (fun v => v = 0) (normalize_row row).
Proof.
  intros Hs. unfold normalize_row. rewrite Hs.
  apply sum_list_zero in Hs.
  apply Forall_map. eapply Forall_impl; [exact Hs |].
  intros c ->. apply np_true_divide_0_0.
Qed.

(** C7: every row of the row-normalized confusion matrix that the scorer
    returns sums to 1, except that a row whose raw counts are all zero is
    a row of zeros. *)
Theorem confusion_norm_rows
    (roc_curve : list Z -> list R -> outcome (list R * list R))
    (auc : list R -> list R -> outcome R)
    (X : matrix) (y : list Z) (model : GaussianClassifier)
    (res : EvaluationResult) :
  evaluate_classifier roc_curve auc X y model = Ok res ->
  length (confusion_norm res) = length (confusion res)
  /\ forall i counts, confusion res !! i = Some counts ->
       exists row, confusion_norm res !! i = Some row
         /\ length row = length counts
         /\ (~ Forall (fun c => c = 0%nat) counts -> rsum row = 1)
         /\ (Forall (fun c => c = 0%nat) counts -> Forall (fun v => v = 0) row).
Proof.
  unfold evaluate_classifier. intros H.
  apply bind_Ok in H. destruct H as (pdf & _ & H).
  apply bind_Ok in H. destruct H as (yp & _ & H).
  apply bind_Ok in H. destruct H as (err & _ & H).
  apply bind_Ok in H. destruct H as (cn & _ & H).
  apply bind_Ok in H. destruct H as (rc & _ & H).
  injection H as <-. simpl. split; [apply length_map |].
  intros i counts Hi. exists (normalize_row counts).
  split; [rewrite list_lookup_fmap, Hi; reflexivity |].
  split; [unfold normalize_row; apply length_map |].
  split.
  - intros Hnz. apply normalize_row_nonzero.
    intros Hz. apply Hnz, sum_list_zero, Hz.
  - intros Hz. apply normalize_row_zero, sum_list_zero, Hz.
Qed.

Lemma evaluate_mid :
  exists res,
    evaluate_classifier (fun _ _ => Ok ([], [])) (fun _ _ => Ok 0)
      X_mid [0%Z] model_example = Ok res
    /\ confusion res = [[1%nat]].
Proof.
  unfold evaluate_classifier.
  rewrite (gaussian_pdf_mid model_example (or_introl eq_refl)).
  cbn [mbind outcome_bind p_c_given_x].
  unfold argmax_axis1. simpl length.
  destruct (decide (2%nat = 0%nat)) as [H | _]; [discriminate |].
  cbn [traverse]. rewrite argmax_tie. simpl.
  eexists. split; reflexivity.
Qed.

Lemma confusion_norm_rows_witness :
  exists res,
    evaluate_classifier (fun _ _ => Ok ([], [])) (fun _ _ => Ok 0)
      X_mid [0%Z] model_example = Ok res
    /\ length (confusion_norm res) = length (confusion res)
    /\ forall i counts, confusion res !! i = Some counts ->
         exists row, confusion_norm res !! i = Some row
           /\ length row = length counts
           /\ (~ Forall (fun c => c = 0%nat) counts -> rsum row = 1)
           /\ (Forall (fun c => c = 0%nat) counts -> Forall (fun v => v = 0) row).
Proof.
  destruct evaluate_mid as (res & Hres & _).
  exists res. split; [exact Hres |].
  exact (confusion_norm_rows _ _ _ _ _ res Hres).
Defined.

(** A row of zero counts does occur: when every sample of a true class is
    predicted as a class that is not among the labels of [y]. *)
Example normalize_row_zero_example :
  Forall (fun v => v = 0) (normalize_row [0%nat; 0%nat]).
Proof. apply normalize_row_zero. reflexivity. Qed.

(** ** The sampler and the heap *)

Lemma preserves_bind {A B} (m : hstate A) (f : A -> hstate B) :
  preserves m -> (forall a, preserves (f a)) -> preserves (m ≫= f).
Proof.
  intros Hm Hf h l o Hl. unfold mbind, hstate_bind.
  specialize (Hm h l o Hl).
  destruct (m h) as [h' [a | e |]]; simpl in *; try assumption.
  apply Hf. exact Hm.
Qed.

Lemma preserves_lift {A} (o : outcome A) : preserves (lift o).
Proof. intros h l ob Hl. exact Hl. Qed.

Lemma preserves_read1 (a : loc) : preserves (read1 a).
Proof.
  intros h l o Hl. unfold read1.
  destruct (h !! a) as [[c d | c d | c] |]; exact Hl.
Qed.

Lemma preserves_read2 (a : loc) : preserves (read2 a).
Proof.
  intros h l o Hl. unfold read2.
  destruct (h !! a) as [[c d | c d | c] |]; exact Hl.
Qed.

Lemma preserves_read_p (a : loc) : preserves (read_p a).
Proof.
  intros h l o Hl. unfold read_p.
  destruct (h !! a) as [[c d | c d | c] |]; exact Hl.
Qed.

Lemma fresh_lookup_ne (h : heap) (l : loc) (o : pyobj) :
  h !! l = Some o -> fresh (dom h) <> l.
Proof.
  intros Hl Heq. apply (is_fresh (dom h)). rewrite Heq.
  apply elem_of_dom. rewrite Hl. eauto.
Qed.

Lemma preserves_asarray (a : loc) : preserves (np_asarray_float a).
Proof.
  intros h l o Hl. unfold np_asarray_float.
  destruct (h !! a) as [[[] d | [] d | []] |]; simpl; try exact Hl;
    rewrite lookup_insert_ne by (eapply fresh_lookup_ne; exact Hl); exact Hl.
Qed.

(** The array that [np.asarray] returns is a float64 array. *)
Lemma asarray_float64 (a p : loc) (h h1 : heap) :
  np_asarray_float a h = (h1, Ok p) ->
  exists o, h1 !! p = Some o /\ container_of o = NdFloat64
    /\ (p = a \/ h !! p = None).
Proof.
  assert (Hfresh : h !! fresh (dom h) = None)
    by apply not_elem_of_dom, is_fresh.
  unfold np_asarray_float.
  destruct (h !! a) as [[[] d | [] d | []] |] eqn:Ha; intros [= <- <-];
    eexists; rewrite ?lookup_insert_eq, ?Ha; (split; [reflexivity |]);
    (split; [reflexivity |]); auto.
Qed.

Lemma idiv_sum_other (a l : loc) (h : heap) :
  l <> a -> (idiv_sum a h).1 !! l = h !! l.
Proof.
  intros Hne. unfold idiv_sum.
  destruct (h !! a) as [[c d | c d | c] |]; try reflexivity.
  - destruct (traverse _ d); simpl; apply lookup_insert_ne; congruence.
  - destruct (traverse _ (rows d)); simpl; apply lookup_insert_ne; congruence.
Qed.

Section SamplerHeap.
Context {G : Type} `{NumpyRandom G}.

(** The part of [gm_sample] after [priors /= priors.sum()]. *)
Lemma gm_sample_rest_preserves (n : nat) (p means variances : loc)
    (rs : option Z) (w : world G) :
  preserves
    (m ← np_asarray_float means;
     v ← np_asarray_float variances;
     pd ← read_p p;
     md ← read2 m;
     vd ← read1 v;
     lift (sample_from n pd md vd (default_rng rs w) (uninit w))).
Proof.
  apply preserves_bind; [apply preserves_asarray | intros m].
  apply preserves_bind; [apply preserves_asarray | intros v].
  apply preserves_bind; [apply preserves_read_p | intros pd].
  apply preserves_bind; [apply preserves_read2 | intros md].
  apply preserves_bind; [apply preserves_read1 | intros vd].
  apply preserves_lift.
Qed.

(** What the call does to a float64 priors array whose sum is not 0: it
    is divided by its sum in place, whatever happens afterwards. *)
Lemma gm_sample_normalizes_in_place (n : nat) (priors means variances : loc)
    (rs : option Z) (w : world G) (h : heap) (d : list R) :
  h !! priors = Some (Arr1 NdFloat64 d) -> rsum d <> 0 ->
  (gm_sample n priors means variances rs w h).1 !! priors
    = Some (Arr1 NdFloat64 (map (fun x => x / rsum d) d)).
Proof.
  intros Hp Hs. unfold gm_sample.
  unfold mbind at 1, hstate_bind at 1.
  unfold np_asarray_float at 1. rewrite Hp.
  unfold mbind at 1, hstate_bind at 1.
  unfold idiv_sum. rewrite Hp.
  rewrite traverse_np_div by exact Hs.
  apply gm_sample_rest_preserves. apply lookup_insert_eq.
Qed.

(** Every other object is left alone: the means, the variances, and a
    priors argument that is not a float64 array ([np.asarray] copies it
    and the copy is what the division writes). *)
Lemma gm_sample_frame (n : nat) (priors means variances : loc)
    (rs : option Z) (w : world G) (h : heap) (l : loc) (o : pyobj) :
  h !! l = Some o ->
  (l = priors -> container_of o <> NdFloat64) ->
  (gm_sample n priors means variances rs w h).1 !! l = Some o.
Proof.
  intros Hl Hne. unfold gm_sample.
  unfold mbind at 1, hstate_bind at 1.
  destruct (np_asarray_float priors h) as [h1 [p | e |]] eqn:E1.
  - pose proof (preserves_asarray priors h l o Hl) as Hl1.
    rewrite E1 in Hl1. simpl in Hl1.
    destruct (asarray_float64 priors p h h1 E1) as (op & Hop & Hc & Hp).
    assert (Hlp : l <> p).
    { intros ->. destruct Hp as [-> | Hnone]; [| congruence].
      rewrite Hl1 in Hop. injection Hop as <-. exact (Hne eq_refl Hc). }
    pose proof (idiv_sum_other p l h1 Hlp) as Hidiv. rewrite Hl1 in Hidiv.
    unfold mbind at 1, hstate_bind at 1.
    destruct (idiv_sum p h1) as [h2 [[] | e |]]; simpl in *; try exact Hidiv.
    apply gm_sample_rest_preserves. exact Hidiv.
  - pose proof (preserves_asarray priors h l o Hl) as Hl1.
    rewrite E1 in Hl1. exact Hl1.
  - pose proof (preserves_asarray priors h l o Hl) as Hl1.
    rewrite E1 in Hl1. exact Hl1.
Qed.
End SamplerHeap.

Lemma heap_main_priors : heap_main !! 0%nat = Some (Arr1 NdFloat64 [2; 1]).
Proof. reflexivity. Qed.

(** C8 fails on the script's own mixture: called with the float64 array
    [2, 1] as priors, the sampler leaves [2/3, 1/3] in the caller's array
    (with the toy generator, and with any other). *)
Theorem gm_sample_mutates_priors :
  heap_main !! 0%nat = Some (Arr1 NdFloat64 [2; 1])
  /\ (gm_sample (G := nat) 100 0 1 2 (Some 37%Z) (World 0%nat (fun _ _ => 0))
        heap_main).1 !! 0%nat
     = Some (Arr1 NdFloat64 [2 / 3; 1 / 3])
  /\ [2 / 3; 1 / 3] <> [2; 1].
Proof.
  split; [reflexivity |]. split.
  - rewrite (gm_sample_normalizes_in_place 100 0 1 2 (Some 37%Z) _ heap_main [2; 1]);
      [| reflexivity | unfold rsum; simpl; lra].
    f_equal. f_equal. unfold rsum. simpl.
    apply (f_equal2 cons); [lra |].
    apply (f_equal2 cons); [lra | reflexivity].
  - intros [= H2 _]. lra.
Qed.

(** ** The sampler's loop fills every row *)

Lemma outcome_rel_eq {A} (o1 o2 : outcome A) : outcome_rel eq o1 o2 -> o1 = o2.
Proof.
  destruct o1, o2; simpl; intros H; try contradiction; congruence.
Qed.

Lemma outcome_rel_bind {A B} (P : A -> A -> Prop) (Q : B -> B -> Prop)
    (m1 m2 : outcome A) (f1 f2 : A -> outcome B) :
  outcome_rel P m1 m2 ->
  (forall a b, P a b -> outcome_rel Q (f1 a) (f2 b)) ->
  outcome_rel Q (m1 ≫= f1) (m2 ≫= f2).
Proof.
  intros Hm Hf. destruct m1, m2; simpl in *; try contradiction; auto.
Qed.

Lemma outcome_rel_refl {A} (P : A -> A -> Prop) (o : outcome A) :
  (forall a, P a a) -> outcome_rel P o o.
Proof. intros HP. destruct o; simpl; auto. Qed.

Lemma for_range_rel {St} (Rel : nat -> St -> St -> Prop)
    (b1 b2 : St -> nat -> outcome St) (n : nat) (s1 s2 : St) :
  (forall k s1 s2, (k < n)%nat -> Rel k s1 s2 ->
     outcome_rel (Rel (S k)) (b1 s1 k) (b2 s2 k)) ->
  Rel 0%nat s1 s2 ->
  outcome_rel (Rel n) (for_range b1 n s1) (for_range b2 n s2).
Proof.
  intros Hb. unfold for_range.
  assert (Hgen : forall m i s1 s2, (i + m = n)%nat -> Rel i s1 s2 ->
            outcome_rel (Rel n)
              (for_enumerate (fun s k (_ : nat) => b1 s k) i (seq i m) s1)
              (for_enumerate (fun s k (_ : nat) => b2 s k) i (seq i m) s2)).
  { induction m as [| m IH]; intros i t1 t2 Hi Ht; simpl.
    - replace n with i by lia. exact Ht.
    - eapply outcome_rel_bind; [apply Hb; [lia | exact Ht] |].
      intros a b Hab. apply IH; [lia | exact Hab]. }
  intros H0. apply (Hgen n 0%nat); [lia | exact H0].
Qed.

Lemma length_mask_assign {A} (mask : list bool) (l vals : list A) :
  length (mask_assign mask l vals) = length l.
Proof.
  revert l vals. induction mask as [| b mask IH]; intros l vals;
    [destruct l; reflexivity |].
  destruct l as [| x l]; [reflexivity |]. simpl.
  destruct b; [destruct vals |]; simpl; rewrite IH; reflexivity.
Qed.

Lemma mask_assign_false {A} (mask : list bool) (l vals : list A) (i : nat) :
  mask !! i = Some false -> mask_assign mask l vals !! i = l !! i.
Proof.
  revert l vals i. induction mask as [| b mask IH]; intros l vals i Hi;
    [discriminate |].
  destruct l as [| x l]; [reflexivity |].
  destruct i as [| i]; simpl in *.
  - injection Hi as ->. reflexivity.
  - destruct b; [destruct vals |]; simpl; apply IH; exact Hi.
Qed.

Lemma count_true_cons (b : bool) (mask : list bool) :
  count_true (b :: mask) = ((if b then 1 else 0) + count_true mask)%nat.
Proof.
  unfold count_true. rewrite filter_cons.
  destruct b; simpl.
  - destruct (decide (true = true)); [reflexivity | congruence].
  - destruct (decide (false = true)); [discriminate | reflexivity].
Qed.

Lemma mask_assign_true {A} (mask : list bool) (l l' vals : list A) (i : nat) :
  length l = length mask -> length l' = length mask ->
  (count_true mask <= length vals)%nat ->
  mask !! i = Some true ->
  mask_assign mask l vals !! i = mask_assign mask l' vals !! i.
Proof.
  revert l l' vals i.
  induction mask as [| b mask IH]; intros l l' vals i Hl Hl' Hc Hi;
    [discriminate |].
  destruct l as [| x l]; [discriminate |].
  destruct l' as [| x' l']; [discriminate |].
  rewrite count_true_cons in Hc. simpl in Hl, Hl'.
  destruct b.
  - destruct vals as [| v vals]; [simpl in Hc; lia |].
    destruct i as [| i]; simpl; [reflexivity |].
    apply IH; [lia | lia | simpl in Hc; lia | exact Hi].
  - destruct i as [| i]; [discriminate |]. simpl.
    apply IH; [lia | lia | simpl in Hc; lia | exact Hi].
Qed.

Lemma existsb_eqb_false (k : nat) (cs : list nat) (i c : nat) :
  existsb (fun b => b) (map (Nat.eqb k) cs) = false ->
  cs !! i = Some c -> c <> k.
Proof.
  revert i. induction cs as [| a cs IH]; intros i Hex Hi; [discriminate |].
  simpl in Hex. apply orb_false_iff in Hex. destruct Hex as [Ha Hex].
  destruct i as [| i]; simpl in Hi.
  - injection Hi as ->. apply Nat.eqb_neq in Ha. congruence.
  - eapply IH; eassumption.
Qed.

Section SamplerLoop.
Context {G : Type} `{NumpyRandom G}.

Lemma sample_body_filled (cs : list nat) (D : nat) (means : list (list R))
    (variances : list R) (k : nat) (s1 s2 : list (list R) * G) :
  filled cs k s1 s2 ->
  outcome_rel (filled cs (S k))
    (sample_body cs D means variances s1 k)
    (sample_body cs D means variances s2 k).
Proof.
  intros (Hg & Hl1 & Hl2 & Hrows). unfold sample_body.
  destruct (existsb (fun b => b) (map (Nat.eqb k) cs)) eqn:Hany; simpl.
  - apply (outcome_rel_bind eq); [apply outcome_rel_refl; reflexivity |].
    intros v _ <-.
    apply (outcome_rel_bind eq); [apply outcome_rel_refl; reflexivity |].
    intros sigma _ <-.
    apply (outcome_rel_bind eq); [apply outcome_rel_refl; reflexivity |].
    intros mu _ <-.
    rewrite Hg.
    destruct (rng_normal s2.2 mu sigma (count_true (map (Nat.eqb k) cs)) D)
      as [draw g'].
    apply (outcome_rel_bind eq); [apply outcome_rel_refl; reflexivity |].
    intros vals _ <-.
    unfold setitem_mask. rewrite Hl1, Hl2, length_map.
    destruct (decide (length cs = length cs)) as [_ | Hne]; [| contradiction].
    destruct (decide (length vals = count_true (map (Nat.eqb k) cs)))
      as [Hc | Hc]; simpl; [| reflexivity].
    unfold filled. cbn [fst snd].
    split; [reflexivity |]. rewrite !length_mask_assign.
    split; [exact Hl1 |]. split; [exact Hl2 |].
    intros i c Hi Hlt.
    assert (Hmask : map (Nat.eqb k) cs !! i = Some (Nat.eqb k c))
      by (rewrite list_lookup_fmap, Hi; reflexivity).
    destruct (Nat.eqb_spec k c) as [-> | Hne].
    + apply mask_assign_true; try assumption;
        rewrite ?length_map; try assumption. lia.
    + rewrite !mask_assign_false by exact Hmask.
      apply (Hrows i c Hi). lia.
  - repeat split; try assumption.
    intros i c Hi Hlt. apply (Hrows i c Hi).
    pose proof (existsb_eqb_false k cs i c Hany Hi). lia.
Qed.

(** The dataset drawn does not depend on what [np.empty] returned. *)
Lemma sample_from_uninit (n : nat) (priors : list R) (means : matrix)
    (variances : list R) (g : G) (e1 e2 : nat -> nat -> R) :
  choice_in_range ->
  sample_from n priors means variances g e1
  = sample_from n priors means variances g e2.
Proof.
  intros Hrange. unfold sample_from.
  destruct (rng_choice g (length priors) n priors) as [drawn g1] eqn:Hch.
  destruct drawn as [cs | e |]; simpl; try reflexivity.
  destruct (Hrange _ _ _ _ _ _ Hch) as [Hlen Hlt].
  apply outcome_rel_eq.
  eapply outcome_rel_bind.
  - apply (for_range_rel (filled cs)).
    + intros k s1 s2 _ Hs. apply sample_body_filled, Hs.
    + repeat split; simpl; rewrite ?length_map, ?length_seq; lia.
  - intros [X1 g1'] [X2 g2'] (Hg & Hl1 & Hl2 & Hrows). simpl in *.
    f_equal. f_equal.
    apply list_eq. intros i.
    destruct (cs !! i) as [c |] eqn:Hi.
    + apply (Hrows i c Hi). rewrite Forall_forall in Hlt.
      apply Hlt. eapply list_elem_of_lookup_2, Hi.
    + apply lookup_ge_None in Hi.
      rewrite !lookup_ge_None_2 by lia. reflexivity.
Qed.
End SamplerLoop.

(** ** The sampler is a function of its arguments and its seed *)

Lemma hrel_bind {A B} (Pre : heap -> heap -> Prop) (m1 m2 : hstate A)
    (Mid : A -> A -> heap -> heap -> Prop) (f1 f2 : A -> hstate B)
    (Post : B -> B -> heap -> heap -> Prop) :
  hrel Pre m1 m2 Mid ->
  (forall a1 a2, hrel (Mid a1 a2) (f1 a1) (f2 a2) Post) ->
  hrel Pre (m1 ≫= f1) (m2 ≫= f2) Post.
Proof.
  intros Hm Hf h1 h2 Hpre. specialize (Hm h1 h2 Hpre).
  unfold mbind, hstate_bind.
  destruct (m1 h1) as [h1' [a1 | e1 |]], (m2 h2) as [h2' [a2 | e2 |]];
    try contradiction; try assumption.
  apply (Hf a1 a2 h1' h2' Hm).
Qed.

Lemma hrel_outcome {A} (Pre : heap -> heap -> Prop) (c1 c2 : hstate A)
    (h1 h2 : heap) :
  hrel Pre c1 c2 (fun a1 a2 _ _ => a1 = a2) -> Pre h1 h2 ->
  (c1 h1).2 = (c2 h2).2.
Proof.
  intros Hc Hpre. specialize (Hc h1 h2 Hpre).
  destruct (c1 h1) as [h1' [a1 | e1 |]], (c2 h2) as [h2' [a2 | e2 |]];
    simpl; try contradiction; congruence.
Qed.

Lemma related_cons_same (B : list (loc * loc)) (h1 h2 : heap) (a b : loc) :
  related B h1 h2 -> (a, b) ∈ B -> related ((a, b) :: B) h1 h2.
Proof.
  intros [Hobj Halias] Hab. split.
  - intros x y Hxy. apply elem_of_cons in Hxy.
    destruct Hxy as [[= -> ->] | Hxy]; auto.
  - intros x y x' y' Hxy Hxy'.
    apply elem_of_cons in Hxy. apply elem_of_cons in Hxy'.
    destruct Hxy as [[= -> ->] | Hxy], Hxy' as [[= -> ->] | Hxy']; auto; tauto.
Qed.

Lemma related_alloc (B : list (loc * loc)) (h1 h2 : heap) (o : pyobj) :
  related B h1 h2 ->
  related ((fresh (dom h1), fresh (dom h2)) :: B)
    (<[fresh (dom h1) := o]> h1) (<[fresh (dom h2) := o]> h2).
Proof.
  intros [Hobj Halias].
  assert (Hfresh : forall x y, (x, y) ∈ B ->
            fresh (dom h1) <> x /\ fresh (dom h2) <> y).
  { intros x y Hxy. destruct (Hobj x y Hxy) as [[o1 Ho1] Heq]. split.
    - eapply fresh_lookup_ne, Ho1.
    - eapply fresh_lookup_ne. rewrite <- Heq. exact Ho1. }
  split.
  - intros x y Hxy. apply elem_of_cons in Hxy.
    destruct Hxy as [[= -> ->] | Hxy].
    + rewrite !lookup_insert_eq. eauto.
    + destruct (Hfresh x y Hxy) as [H1 H2].
      rewrite !lookup_insert_ne by assumption. auto.
  - intros x y x' y' Hxy Hxy'.
    apply elem_of_cons in Hxy. apply elem_of_cons in Hxy'.
    destruct Hxy as [[= -> ->] | Hxy], Hxy' as [[= -> ->] | Hxy'].
    + tauto.
    + destruct (Hfresh x' y' Hxy'). tauto.
    + destruct (Hfresh x y Hxy). split; intros E; symmetry in E; tauto.
    + auto.
Qed.

Lemma hrel_asarray (B : list (loc * loc)) (a b : loc) :
  (a, b) ∈ B ->
  hrel (related B) (np_asarray_float a) (np_asarray_float b)
    (fun a' b' => related ((a', b') :: B)).
Proof.
  intros Hab h1 h2 Hrel.
  pose proof Hrel as [Hobj _]. destruct (Hobj a b Hab) as [[o Ho] Heq].
  unfold np_asarray_float. rewrite <- Heq, Ho.
  destruct o as [[] d | [] d | []];
    try (apply related_cons_same; assumption);
    apply related_alloc; assumption.
Qed.

Lemma related_insert (B : list (loc * loc)) (h1 h2 : heap) (a b : loc)
    (o : pyobj) :
  related B h1 h2 -> (a, b) ∈ B ->
  related B (<[a := o]> h1) (<[b := o]> h2).
Proof.
  intros [Hobj Halias] Hab. split; [| exact Halias].
  intros x y Hxy. destruct (Hobj x y Hxy) as [Hsome Hxy_eq].
  pose proof (Halias a b x y Hab Hxy) as Hiff.
  destruct (decide (a = x)) as [-> | Hne].
  - assert (b = y) as -> by tauto. rewrite !lookup_insert_eq. eauto.
  - assert (b <> y) by tauto. rewrite !lookup_insert_ne by assumption. auto.
Qed.

Lemma hrel_idiv_sum (B : list (loc * loc)) (a b : loc) :
  (a, b) ∈ B ->
  hrel (related B) (idiv_sum a) (idiv_sum b) (fun _ _ => related B).
Proof.
  intros Hab h1 h2 Hrel.
  pose proof Hrel as [Hobj Halias]. destruct (Hobj a b Hab) as [[o Ho] Heq].
  unfold idiv_sum. rewrite <- Heq, Ho.
  destruct o as [c d | c d | c]; [| | exact Hrel].
  - destruct (traverse (fun x => np_div x (rsum d)) d) as [d' | e |];
      apply related_insert; assumption.
  - destruct (traverse _ (rows d)) as [d' | e |];
      apply related_insert; assumption.
Qed.

Lemma hrel_read1 (B : list (loc * loc)) (a b : loc) :
  (a, b) ∈ B ->
  hrel (related B) (read1 a) (read1 b)
    (fun d1 d2 h1 h2 => d1 = d2 /\ related B h1 h2).
Proof.
  intros Hab h1 h2 Hrel.
  pose proof Hrel as [Hobj _]. destruct (Hobj a b Hab) as [[o Ho] Heq].
  unfold read1. rewrite <- Heq, Ho.
  destruct o as [c d | c d | c];
    [split; [reflexivity | exact Hrel] | reflexivity | exact I].
Qed.

Lemma hrel_read2 (B : list (loc * loc)) (a b : loc) :
  (a, b) ∈ B ->
  hrel (related B) (read2 a) (read2 b)
    (fun d1 d2 h1 h2 => d1 = d2 /\ related B h1 h2).
Proof.
  intros Hab h1 h2 Hrel.
  pose proof Hrel as [Hobj _]. destruct (Hobj a b Hab) as [[o Ho] Heq].
  unfold read2. rewrite <- Heq, Ho.
  destruct o as [c d | c d | c];
    [reflexivity | split; [reflexivity | exact Hrel] | exact I].
Qed.

Lemma hrel_read_p (B : list (loc * loc)) (a b : loc) :
  (a, b) ∈ B ->
  hrel (related B) (read_p a) (read_p b)
    (fun d1 d2 h1 h2 => d1 = d2 /\ related B h1 h2).
Proof.
  intros Hab h1 h2 Hrel.
  pose proof Hrel as [Hobj _]. destruct (Hobj a b Hab) as [[o Ho] Heq].
  unfold read_p. rewrite <- Heq, Ho.
  destruct o as [c d | c d | c];
    [split; [reflexivity | exact Hrel] | reflexivity | reflexivity].
Qed.

Lemma hrel_weaken_pre {A} (Pre Pre' : heap -> heap -> Prop) (c1 c2 : hstate A)
    (Post : A -> A -> heap -> heap -> Prop) :
  (forall h1 h2, Pre' h1 h2 -> Pre h1 h2) ->
  hrel Pre c1 c2 Post -> hrel Pre' c1 c2 Post.
Proof. intros Himp Hc h1 h2 Hpre. apply Hc, Himp, Hpre. Qed.

Lemma same_arguments_related (priors means variances : loc) (h1 h2 : heap) :
  same_arguments priors means variances h1 h2 ->
  related [(priors, priors); (means, means); (variances, variances)] h1 h2.
Proof.
  intros Hsame. split.
  - intros a b Hab.
    rewrite !elem_of_cons, elem_of_nil in Hab.
    destruct Hab as [[= -> ->] | [[= -> ->] | [[= -> ->] | []]]];
      apply (Hsame _); rewrite !elem_of_cons; tauto.
  - intros a b a' b' Hab Hab'.
    rewrite !elem_of_cons, elem_of_nil in Hab, Hab'.
    destruct Hab as [[= -> ->] | [[= -> ->] | [[= -> ->] | []]]];
    destruct Hab' as [[= -> ->] | [[= -> ->] | [[= -> ->] | []]]]; tauto.
Qed.

Lemma hrel_bind_pure {A B} (Pre Pre' : heap -> heap -> Prop)
    (m1 m2 : hstate A) (f1 f2 : A -> hstate B)
    (Post : B -> B -> heap -> heap -> Prop) :
  hrel Pre m1 m2 (fun a1 a2 h1 h2 => a1 = a2 /\ Pre' h1 h2) ->
  (forall a, hrel Pre' (f1 a) (f2 a) Post) ->
  hrel Pre (m1 ≫= f1) (m2 ≫= f2) Post.
Proof.
  intros Hm Hf. eapply hrel_bind; [exact Hm |].
  intros a1 a2 h1 h2 [-> Hpre]. apply Hf, Hpre.
Qed.

Lemma hrel_lift {A} (Pre : heap -> heap -> Prop) (o1 o2 : outcome A) :
  o1 = o2 -> hrel Pre (lift o1) (lift o2) (fun a1 a2 _ _ => a1 = a2).
Proof.
  intros -> h1 h2 _. unfold lift. destruct o2; reflexivity || exact I.
Qed.

Section SamplerDeterminism.
Context {G : Type} `{NumpyRandom G}.

Lemma gm_sample_related (n : nat) (priors means variances : loc) (seed : Z)
    (w1 w2 : world G) :
  choice_in_range ->
  hrel (related [(priors, priors); (means, means); (variances, variances)])
    (gm_sample n priors means variances (Some seed) w1)
    (gm_sample n priors means variances (Some seed) w2)
    (fun a1 a2 _ _ => a1 = a2).
Proof.
  intros Hrange. unfold gm_sample.
  eapply hrel_bind; [apply hrel_asarray; rewrite !elem_of_cons; tauto |].
  intros p1 p2.
  eapply hrel_bind; [apply hrel_idiv_sum; rewrite !elem_of_cons; tauto |].
  intros u1 u2. cbv beta.
  eapply hrel_bind; [apply hrel_asarray; rewrite !elem_of_cons; tauto |].
  intros m1 m2.
  eapply hrel_bind; [apply hrel_asarray; rewrite !elem_of_cons; tauto |].
  intros v1 v2.
  eapply hrel_bind_pure; [apply hrel_read_p; rewrite !elem_of_cons; tauto |].
  intros pd.
  eapply hrel_bind_pure; [apply hrel_read2; rewrite !elem_of_cons; tauto |].
  intros md.
  eapply hrel_bind_pure; [apply hrel_read1; rewrite !elem_of_cons; tauto |].
  intros vd.
  apply hrel_lift. simpl. apply sample_from_uninit, Hrange.
Qed.

(** C9: with a seed, the dataset returned is a function of the seed, the
    sample count and the three argument objects: two calls agree whatever
    else the heap holds, whatever the operating system's entropy is and
    whatever [np.empty] returned.  The generator is any implementation of
    numpy's interface whose [choice] returns components in range. *)
Theorem gm_sample_deterministic (n : nat) (priors means variances : loc)
    (seed : Z) (h1 h2 : heap) (w1 w2 : world G) :
  choice_in_range ->
  same_arguments priors means variances h1 h2 ->
  (gm_sample n priors means variances (Some seed) w1 h1).2
  = (gm_sample n priors means variances (Some seed) w2 h2).2.
Proof.
  intros Hrange Hsame.
  eapply hrel_outcome;
    [apply gm_sample_related, Hrange | apply same_arguments_related, Hsame].
Qed.
End SamplerDeterminism.

Lemma counter_choice_in_range : choice_in_range (G := nat).
Proof.
  intros g a size p cs g'. simpl.
  destruct (decide (a = 0%nat)) as [-> | Ha].
  - destruct (decide (size = 0%nat)) as [-> | Hs]; [| discriminate].
    intros [= <- _]. split; [reflexivity | constructor].
  - intros [= <- _]. split; [rewrite length_map, length_seq; reflexivity |].
    apply Forall_map, Forall_forall. intros i _. simpl.
    apply Nat.mod_upper_bound. exact Ha.
Qed.

Lemma same_arguments_main : same_arguments 0 1 2 heap_main heap_other.
Proof.
  intros l Hl. rewrite !elem_of_cons, elem_of_nil in Hl.
  destruct Hl as [-> | [-> | [-> | []]]]; split; try reflexivity; eexists; reflexivity.
Qed.

Lemma gm_sample_deterministic_witness :
  (gm_sample (G := nat) 100 0 1 2 (Some 37%Z) (World 0%nat (fun _ _ => 0))
     heap_main).2
  = (gm_sample (G := nat) 100 0 1 2 (Some 37%Z) (World 5%nat (fun _ _ => 1))
       heap_other).2.
Proof.
  exact (gm_sample_deterministic 100 0 1 2 37%Z heap_main heap_other
           (World 0%nat (fun _ _ => 0)) (World 5%nat (fun _ _ => 1))
           counter_choice_in_range same_arguments_main).
Defined.

(** * Further properties of the estimator *)

Lemma fit_ok_inv (X : matrix) (y : list Z) (g : string) (m : GaussianClassifier) :
  length y = nrows X -> fit_gaussian_classifier X y g = Ok m ->
  priors m = map (class_prior X y) (np_unique y)
  /\ means m = map (class_mean X y) (np_unique y)
  /\ (g = "I"%string
      /\ variances m = map (fun k => np_clip_min eps_var (class_spread X y k))
                           (np_unique y)
      \/ g = "i"%string /\ y <> [] /\ ncols X <> 0%nat
         /\ variances m =
              [np_clip_min eps_var
                 (rsum (map (class_spread X y) (np_unique y))
                  / INR (length (np_unique y)))]).
Proof.
  intros Hlen Hfit.
  destruct (recognized g) eqn:Hg;
    [| rewrite fit_unrecognized in Hfit by exact Hg; discriminate].
  apply recognized_spec in Hg.
  destruct (decide (y = [])) as [-> | Hy].
  - destruct Hg as [-> | ->].
    + rewrite fit_per_class_empty in Hfit. injection Hfit as <-. simpl. auto.
    + rewrite fit_shared_empty in Hfit. discriminate.
  - destruct (decide (ncols X = 0%nat)) as [HD | HD].
    + rewrite fit_zero_cols in Hfit; try assumption; [discriminate |].
      apply recognized_spec. exact Hg.
    + destruct Hg as [-> | ->].
      * rewrite fit_per_class_ok in Hfit by assumption.
        injection Hfit as <-. simpl. auto.
      * rewrite fit_shared_ok in Hfit by assumption.
        injection Hfit as <-. simpl. repeat split; auto.
Qed.

Lemma compress_mask_count (k : Z) (ys : list Z) (rs : list (list R)) :
  length ys = length rs ->
  length (compress (mask_eq ys k) rs) = count_label ys k.
Proof.
  unfold count_label. revert rs.
  induction ys as [| a ys IH]; intros rs Hl; [reflexivity |].
  destruct rs as [| r rs]; [discriminate |].
  simpl in Hl. simpl. rewrite filter_cons.
  destruct (Z.eqb_spec k a) as [-> | Hne].
  - destruct (decide (a = a)) as [_ | Hn]; [| contradiction].
    simpl. rewrite IH by lia. reflexivity.
  - destruct (decide (a = k)) as [He | _]; [congruence |].
    apply IH. lia.
Qed.

Lemma class_prior_count (X : matrix) (y : list Z) (k : Z) :
  length y = nrows X ->
  class_prior X y k = INR (count_label y k) / INR (length y).
Proof.
  intros Hlen. unfold class_prior, class_rows.
  rewrite compress_mask_count by exact Hlen. rewrite Hlen. reflexivity.
Qed.

(** X1: what the fitted model holds for the class at index [idx], the
    [idx]-th smallest label [k] of [y]: its prior is the share of samples
    labelled [k], its mean is the column-wise mean of those samples, and in
    PER_CLASS mode its variance is that class's own spread floored at
    1e-9. *)
Theorem fit_class_entries (X : matrix) (y : list Z) (g : string)
    (m : GaussianClassifier) (idx : nat) (k : Z) :
  wf_dataset X y ->
  fit_gaussian_classifier X y g = Ok m ->
  np_unique y !! idx = Some k ->
  priors m !! idx = Some (INR (count_label y k) / INR (length y))
  /\ means m !! idx = Some (class_mean X y k)
  /\ (g = "I"%string ->
      variances m !! idx = Some (Rmax (class_spread X y k) 1e-9)).
Proof.
  intros [_ Hlen] Hfit Hk.
  destruct (fit_ok_inv X y g m Hlen Hfit) as (Hp & Hm & Hv).
  rewrite Hp, Hm, !list_lookup_fmap, Hk. simpl.
  rewrite class_prior_count by exact Hlen.
  repeat split.
  intros ->. destruct Hv as [[_ Hv] | [Hg _]]; [| discriminate].
  rewrite Hv, list_lookup_fmap, Hk. reflexivity.
Qed.

Lemma fit_class_entries_witness :
  priors model_example !! 1%nat
    = Some (INR (count_label y_example 1) / INR (length y_example))
  /\ means model_example !! 1%nat = Some (class_mean X_example y_example 1)
  /\ ("I"%string = "I"%string ->
      variances model_example !! 1%nat
        = Some (Rmax (class_spread X_example y_example 1) 1e-9)).
Proof.
  exact (fit_class_entries X_example y_example "I" model_example 1 1%Z
           wf_example fit_example_per_class eq_refl).
Defined.

Lemma compress_Forall {A} (P : A -> Prop) (mask : list bool) (l : list A) :
  Forall P l -> Forall P (compress mask l).
Proof.
  intros Hl. revert mask. induction Hl as [| x l Hx Hl IH]; intros mask.
  - destruct mask; constructor.
  - destruct mask as [| b mask]; [constructor |]. simpl.
    destruct b; [constructor; [exact Hx |] |]; apply IH.
Qed.

Lemma compress_length_le {A} (mask : list bool) (l : list A) :
  (length (compress mask l) <= length l)%nat.
Proof.
  revert l. induction mask as [| b mask IH]; intros l; [simpl; lia |].
  destruct l as [| x l]; [simpl; lia |]. simpl.
  specialize (IH l). destruct b; simpl; lia.
Qed.

Lemma col_sum_length (D : nat) (Xk : list (list R)) :
  Forall (fun r => length r = D) Xk -> length (col_sum D Xk) = D.
Proof.
  unfold col_sum. induction 1 as [| r Xk Hr _ IH]; simpl.
  - apply length_replicate.
  - rewrite length_zip_with, IH, Hr. lia.
Qed.

Lemma class_mean_length (X : matrix) (y : list Z) (k : Z) :
  wf_matrix X -> length (class_mean X y k) = ncols X.
Proof.
  intros Hwf. unfold class_mean. rewrite length_map.
  apply col_sum_length. unfold class_rows. apply compress_Forall, Hwf.
Qed.

(** X2: the shapes of the fitted model: with K distinct labels in [y],
    priors has K entries, means has K rows of D entries each, and
    variances has K entries in PER_CLASS mode and one in SHARED mode. *)
Theorem fit_shapes (X : matrix) (y : list Z) (g : string)
    (m : GaussianClassifier) :
  wf_dataset X y ->
  fit_gaussian_classifier X y g = Ok m ->
  length (priors m) = length (np_unique y)
  /\ length (means m) = length (np_unique y)
  /\ Forall (fun mu => length mu = ncols X) (means m)
  /\ length (variances m)
     = (if String.eqb g "I" then length (np_unique y) else 1%nat)
  /\ gtype m = g.
Proof.
  intros [Hwf Hlen] Hfit.
  destruct (fit_ok_inv X y g m Hlen Hfit) as (Hp & Hm & Hv).
  rewrite Hp, Hm, !length_map. repeat split.
  - apply Forall_map, Forall_forall. intros k _. simpl.
    apply class_mean_length, Hwf.
  - destruct Hv as [[-> ->] | (-> & _ & _ & ->)]; simpl;
      [apply length_map | reflexivity].
  - revert Hfit. unfold fit_gaussian_classifier.
    destruct (negb (recognized g)); [discriminate |]. cbv zeta.
    intros Hfit. apply bind_Ok in Hfit. destruct Hfit as (st & _ & Hfit).
    apply bind_Ok in Hfit. destruct Hfit as (vs & _ & Hfit).
    injection Hfit as <-. reflexivity.
Qed.

Lemma fit_shapes_witness :
  length (priors model_example_shared) = length (np_unique y_example)
  /\ length (means model_example_shared) = length (np_unique y_example)
  /\ Forall (fun mu => length mu = ncols X_example) (means model_example_shared)
  /\ length (variances model_example_shared)
     = (if String.eqb "i" "I" then length (np_unique y_example) else 1%nat)
  /\ gtype model_example_shared = "i"%string.
Proof.
  exact (fit_shapes X_example y_example "i" model_example_shared
           wf_example fit_example_shared).
Defined.

(** X3: every class of a fitted model has a prior in (0, 1]: a label is a
    class only if some sample carries it. *)
Theorem fit_priors_positive (X : matrix) (y : list Z) (g : string)
    (m : GaussianClassifier) :
  wf_dataset X y ->
  fit_gaussian_classifier X y g = Ok m ->
  Forall (fun p => 0 < p <= 1) (priors m).
Proof.
  intros [_ Hlen] Hfit.
  destruct (fit_ok_inv X y g m Hlen Hfit) as (-> & _ & _).
  apply Forall_map, Forall_forall. intros k Hk. simpl.
  apply (proj1 (np_unique_elem k y)) in Hk.
  pose proof (class_count_pos X y Hlen k Hk) as Hpos.
  pose proof (nrows_pos X y Hlen k Hk) as HN.
  assert (Hle : (length (class_rows X y k) <= nrows X)%nat)
    by apply compress_length_le.
  unfold class_prior.
  assert (0 < INR (nrows X)) by (apply lt_0_INR; lia).
  assert (0 < INR (length (class_rows X y k))) by (apply lt_0_INR; lia).
  assert (INR (length (class_rows X y k)) <= INR (nrows X)) by (apply le_INR; lia).
  split.
  - apply Rdiv_lt_0_compat; assumption.
  - apply (Rmult_le_reg_r (INR (nrows X))); [assumption |].
    unfold Rdiv. rewrite Rmult_assoc, Rinv_l by lra. lra.
Qed.

Lemma fit_priors_positive_witness :
  Forall (fun p => 0 < p <= 1) (priors model_example).
Proof.
  exact (fit_priors_positive X_example y_example "I" model_example
           wf_example fit_example_per_class).
Defined.

Lemma rsum_bounds (lo hi : R) (l : list R) :
  Forall (fun x => lo <= x <= hi) l ->
  INR (length l) * lo <= rsum l <= INR (length l) * hi.
Proof.
  induction 1 as [| a l Ha _ IH].
  - unfold rsum. simpl. lra.
  - rewrite rsum_cons. change (length (a :: l)) with (S (length l)).
    rewrite S_INR. lra.
Qed.

Lemma mean_bounds (lo hi : R) (l : list R) :
  l <> [] -> Forall (fun x => lo <= x <= hi) l ->
  lo <= rsum l / INR (length l) <= hi.
Proof.
  intros Hne Hl. pose proof (rsum_bounds lo hi l Hl) as [H1 H2].
  assert (Hn : 0 < INR (length l)).
  { apply lt_0_INR. destruct l; [congruence | simpl; lia]. }
  split.
  - apply (Rmult_le_reg_r (INR (length l))); [exact Hn |].
    unfold Rdiv. rewrite Rmult_assoc, Rinv_l by lra. lra.
  - apply (Rmult_le_reg_r (INR (length l))); [exact Hn |].
    unfold Rdiv. rewrite Rmult_assoc, Rinv_l by lra. lra.
Qed.

Lemma floored_mean_between (lo hi : R) (vs : list R) :
  vs <> [] ->
  Forall (fun v => lo <= Rmax v 1e-9 <= hi) vs ->
  lo <= Rmax (rsum vs / INR (length vs)) 1e-9 <= hi.
Proof.
  intros Hne Hall.
  assert (Heps : 1e-9 <= hi).
  { destruct vs as [| v vs]; [congruence |].
    apply Forall_cons in Hall. destruct Hall as [[_ Hv] _].
    pose proof (Rmax_r v 1e-9). lra. }
  split.
  - destruct (Rle_dec lo 1e-9) as [Hlo | Hlo].
    + pose proof (Rmax_r (rsum vs / INR (length vs)) 1e-9). lra.
    + assert (Hvs : Forall (fun v => lo <= v <= hi) vs).
      { eapply Forall_impl; [exact Hall |]. intros v [H1 H2]. simpl in *.
        pose proof (Rmax_l v 1e-9). split; [| lra].
        unfold Rmax in H1. destruct (Rle_dec v 1e-9); lra. }
      pose proof (mean_bounds lo hi vs Hne Hvs) as [Hm _].
      pose proof (Rmax_l (rsum vs / INR (length vs)) 1e-9). lra.
  - apply Rmax_lub; [| exact Heps].
    assert (Hup : rsum vs <= INR (length vs) * hi).
    { clear Hne. induction Hall as [| a l [_ Ha] _ IH].
      - unfold rsum. simpl. lra.
      - rewrite rsum_cons. change (length (a :: l)) with (S (length l)).
        rewrite S_INR. pose proof (Rmax_l a 1e-9). lra. }
    assert (Hn : 0 < INR (length vs)).
    { apply lt_0_INR. destruct vs; [congruence | simpl; lia]. }
    apply (Rmult_le_reg_r (INR (length vs))); [exact Hn |].
    unfold Rdiv. rewrite Rmult_assoc, Rinv_l by lra. lra.
Qed.

(** X4: the two modes differ in the variances only.  On the same dataset
    they give the same priors and the same means, and the single SHARED
    variance lies between the smallest and the largest PER_CLASS variance
    (so it equals them when they are all equal). *)
Theorem fit_modes_agree (X : matrix) (y : list Z)
    (mI mi : GaussianClassifier) :
  wf_dataset X y ->
  fit_gaussian_classifier X y "I" = Ok mI ->
  fit_gaussian_classifier X y "i" = Ok mi ->
  priors mi = priors mI /\ means mi = means mI
  /\ exists s, variances mi = [s]
       /\ forall lo hi, Forall (fun v => lo <= v <= hi) (variances mI) ->
            lo <= s <= hi.
Proof.
  intros [_ Hlen] HI Hi.
  destruct (fit_ok_inv X y "I" mI Hlen HI) as (HpI & HmI & HvI).
  destruct (fit_ok_inv X y "i" mi Hlen Hi) as (Hpi & Hmi & Hvi).
  destruct HvI as [[_ HvI] | [Hg _]]; [| discriminate].
  destruct Hvi as [[Hg _] | (_ & Hy & HD & Hvi)]; [discriminate |].
  split; [congruence |]. split; [congruence |].
  eexists. split; [exact Hvi |].
  intros lo hi Hall. rewrite HvI in Hall.
  rewrite <- (length_map (class_spread X y) (np_unique y)).
  apply floored_mean_between.
  - destruct (np_unique_nonempty y Hy) as (k & ks & -> & _). discriminate.
  - apply Forall_map. apply Forall_map in Hall. exact Hall.
Qed.

Lemma fit_modes_agree_witness :
  priors model_example_shared = priors model_example
  /\ means model_example_shared = means model_example
  /\ exists s, variances model_example_shared = [s]
       /\ forall lo hi,
            Forall (fun v => lo <= v <= hi) (variances model_example) ->
            lo <= s <= hi.
Proof.
  exact (fit_modes_agree X_example y_example model_example model_example_shared
           wf_example fit_example_per_class fit_example_shared).
Defined.

Lemma fit_per_class_returns (X : matrix) (y : list Z) :
  length y = nrows X -> ncols X <> 0%nat ->
  exists m, fit_gaussian_classifier X y "I" = Ok m.
Proof. intros Hlen HD. rewrite fit_per_class_ok by assumption. eauto. Qed.

Lemma sq_dist_single (r : list R) :
  sq_dist (map (fun s => s / INR 1)
             (zip_with Rplus r (replicate (length r) 0))) r = 0.
Proof.
  unfold sq_dist, rsum. induction r as [| a r IH]; simpl; [reflexivity |].
  simpl in IH. rewrite IH. lra.
Qed.

(** A class with a single sample has no spread: the sample is its own
    mean. *)
Lemma single_sample_spread (X : matrix) (y : list Z) (k : Z) :
  wf_matrix X -> length y = nrows X -> count_label y k = 1%nat ->
  class_spread X y k = 0.
Proof.
  intros Hwf Hlen Hone.
  assert (Hrows : Forall (fun r => length r = ncols X) (class_rows X y k))
    by (apply compress_Forall, Hwf).
  assert (Hcount : length (class_rows X y k) = 1%nat)
    by (unfold class_rows; rewrite compress_mask_count by exact Hlen; exact Hone).
  unfold class_spread, class_mean.
  destruct (class_rows X y k) as [| r [| r' rs]]; try discriminate.
  apply Forall_cons in Hrows. destruct Hrows as [Hr _].
  unfold col_sum. simpl foldr. rewrite <- Hr.
  simpl map. simpl length. rewrite sq_dist_single.
  unfold rsum. simpl. unfold Rdiv. lra.
Qed.

(** X5: in PER_CLASS mode a class with a single sample has no spread of
    its own: its variance is the floor 1e-9. *)
Theorem fit_single_sample_floor (X : matrix) (y : list Z)
    (m : GaussianClassifier) (idx : nat) (k : Z) :
  wf_dataset X y ->
  fit_gaussian_classifier X y "I" = Ok m ->
  np_unique y !! idx = Some k ->
  count_label y k = 1%nat ->
  variances m !! idx = Some 1e-9.
Proof.
  intros [Hwf Hlen] Hfit Hk Hone.
  destruct (fit_ok_inv X y "I" m Hlen Hfit) as (_ & _ & Hv).
  destruct Hv as [[_ Hv] | [Hg _]]; [| discriminate].
  rewrite Hv, list_lookup_fmap, Hk. simpl. f_equal.
  rewrite (single_sample_spread X y k Hwf Hlen Hone).
  unfold np_clip_min, eps_var. apply Rmax_right. lra.
Qed.

Lemma fit_single_sample_floor_witness :
  exists m,
    fit_gaussian_classifier (Matrix 1 [[0]; [2]; [7]]) [0; 0; 1]%Z "I" = Ok m
    /\ variances m !! 1%nat = Some 1e-9.
Proof.
  assert (Hwf : wf_dataset (Matrix 1 [[0]; [2]; [7]]) [0; 0; 1]%Z)
    by (split; [repeat constructor | reflexivity]).
  destruct (fit_per_class_returns (Matrix 1 [[0]; [2]; [7]]) [0; 0; 1]%Z)
    as [m Hm]; [reflexivity | discriminate |].
  exists m. split; [exact Hm |].
  exact (fit_single_sample_floor _ _ m 1 1%Z Hwf Hm eq_refl eq_refl).
Defined.

Lemma fit_body_mismatch (X : matrix) (y : list Z) (pc : bool)
    (st : fit_state) (idx : nat) (k : Z) :
  length y <> nrows X -> fit_body X y pc st idx k = Raise IndexError.
Proof.
  intros Hlen. unfold fit_body.
  assert (Hidx : bool_index (rows X) (mask_eq y k) = Raise IndexError).
  { unfold bool_index. rewrite mask_eq_length.
    destruct (decide (length y = length (rows X))) as [Heq | _];
      [contradiction | reflexivity]. }
  rewrite Hidx. reflexivity.
Qed.

(** X6: labels and rows of different lengths.  With at least one label the
    boolean index [X[y == k]] of the first class raises [IndexError]. *)
Theorem fit_length_mismatch (X : matrix) (y : list Z) (g : string) :
  g = "I"%string \/ g = "i"%string ->
  y <> [] -> length y <> nrows X ->
  fit_gaussian_classifier X y g = Raise IndexError.
Proof.
  intros Hg Hy Hlen. apply recognized_spec in Hg.
  unfold fit_gaussian_classifier. rewrite Hg. simpl negb. cbv iota zeta.
  destruct (np_unique_nonempty y Hy) as (k & ks & -> & _).
  simpl for_enumerate. rewrite fit_body_mismatch by exact Hlen. reflexivity.
Qed.

Lemma fit_length_mismatch_witness :
  fit_gaussian_classifier X_example [0; 1]%Z "I" = Raise IndexError.
Proof.
  apply (fit_length_mismatch X_example [0; 1]%Z "I");
    [left; reflexivity | discriminate | simpl; discriminate].
Defined.

Lemma fitted_wf_model (X : matrix) (y : list Z) (g : string)
    (m : GaussianClassifier) :
  wf_matrix X -> length y = nrows X ->
  fit_gaussian_classifier X y g = Ok m ->
  wf_model (ncols X) m /\ Forall (fun v => 0 < v) (variances m).
Proof.
  intros Hwf Hlen Hfit.
  destruct (fit_ok_inv X y g m Hlen Hfit) as (Hp & Hm & Hv).
  assert (Hg : gtype m = g).
  { revert Hfit. unfold fit_gaussian_classifier.
    destruct (negb (recognized g)); [discriminate |]. cbv zeta.
    intros Hfit. apply bind_Ok in Hfit. destruct Hfit as (st & _ & Hfit).
    apply bind_Ok in Hfit. destruct Hfit as (vs & _ & Hfit).
    injection Hfit as <-. reflexivity. }
  split; [split; [| split] |].
  - rewrite Hp, Hm, !length_map. reflexivity.
  - rewrite Hm. apply Forall_map, Forall_forall. intros k _. simpl.
    apply class_mean_length, Hwf.
  - intros k Hk. unfold sigma2_of. rewrite Hg.
    destruct Hv as [[-> Hv] | (-> & _ & _ & Hv)]; simpl; rewrite Hv.
    + apply lookup_lt_is_Some_2. rewrite length_map.
      rewrite Hp, length_map in Hk. exact Hk.
    + simpl. eauto.
  - assert (Heps : forall v, 0 < np_clip_min eps_var v).
    { intros v. pose proof (np_clip_min_ge eps_var v). unfold eps_var in *. lra. }
    destruct Hv as [[_ ->] | (_ & _ & _ & ->)].
    + apply Forall_map, Forall_forall. intros k _. apply Heps.
    + constructor; [apply Heps | constructor].
Qed.

(** * Further properties of the density evaluator *)


Lemma set_column_lookup (M : list (list R)) (k : nat) (col : list R)
    (M' : list (list R)) (q : nat) (row : list R) :
  set_column M k col = Ok M' -> M' !! q = Some row ->
  exists row0 v, M !! q = Some row0 /\ col !! q = Some v
                 /\ row = <[k := v]> row0.
Proof.
  unfold set_column.
  destruct (decide (length col = length M)) as [Hl | Hl]; [| discriminate].
  intros [= <-] Hq. apply lookup_zip_with_Some in Hq.
  destruct Hq as (row0 & v & -> & H1 & H2). eauto.
Qed.

Lemma set_column_shape (Q K : nat) (M : list (list R)) (k : nat)
    (col : list R) (M' : list (list R)) :
  table_shape Q K M -> set_column M k col = Ok M' -> table_shape Q K M'.
Proof.
  intros [HQ HK] Hset. pose proof Hset as Hset'. unfold set_column in Hset.
  destruct (decide (length col = length M)) as [Hl | Hl]; [| discriminate].
  injection Hset as <-. split.
  - rewrite length_zip_with. lia.
  - apply Forall_forall. intros row Hrow.
    apply list_elem_of_lookup in Hrow. destruct Hrow as [q Hq].
    destruct (set_column_lookup M k col _ q row Hset' Hq)
      as (row0 & v & H0 & _ & ->).
    rewrite length_insert. rewrite Forall_forall in HK.
    apply HK. eapply list_elem_of_lookup_2, H0.
Qed.

Lemma gaussian_pdf_table_shape (X : matrix) (model : GaussianClassifier)
    (r : pdf_result) :
  gaussian_pdf X model = Ok r ->
  table_shape (nrows X) (length (priors model)) (px_given_c r).
Proof.
  unfold gaussian_pdf. intros H.
  apply bind_Ok in H. destruct H as (pxc & Hloop & H).
  injection H as <-. simpl. unfold for_range in Hloop.
  eapply (for_enumerate_preserves
            (table_shape (nrows X) (length (priors model))));
    [| | exact Hloop].
  - intros M i a M' HM Hbody. simpl in Hbody.
    apply bind_Ok in Hbody. destruct Hbody as (col & _ & Hset).
    eapply set_column_shape; eassumption.
  - split; [apply length_replicate |].
    apply Forall_replicate, length_replicate.
Qed.

(** X8: the shapes of the four outputs: for Q queries and a model of K
    classes the evidence has Q entries and the class-conditional, joint
    and posterior tables have Q rows of K entries each. *)
Theorem gaussian_pdf_shapes (X : matrix) (model : GaussianClassifier)
    (r : pdf_result) :
  gaussian_pdf X model = Ok r ->
  length (px r) = nrows X
  /\ table_shape (nrows X) (length (priors model)) (px_given_c r)
  /\ table_shape (nrows X) (length (priors model)) (px_and_c r)
  /\ table_shape (nrows X) (length (priors model)) (p_c_given_x r).
Proof.
  intros Hrun.
  pose proof (gaussian_pdf_table_shape X model r Hrun) as [HQ HK].
  revert Hrun HQ HK. unfold gaussian_pdf. intros Hrun.
  apply bind_Ok in Hrun. destruct Hrun as (pxc & _ & Hrun).
  injection Hrun as <-. simpl. intros HQ HK.
  assert (Hjoint : Forall (fun row => length row = length (priors model))
                     (map (fun row => zip_with Rmult row (priors model)) pxc)).
  { apply Forall_map. eapply Forall_impl; [exact HK |].
    intros row Hrow. simpl in *. rewrite length_zip_with, Hrow. lia. }
  split; [rewrite !length_map; exact HQ |].
  split; [split; assumption |].
  split; [split; [rewrite length_map; exact HQ | exact Hjoint] |].
  split; [rewrite length_zip_with, !length_map; lia |].
  apply Forall_forall. intros row Hrow.
  apply list_elem_of_lookup in Hrow. destruct Hrow as [q Hq].
  apply lookup_zip_with_Some in Hq. destruct Hq as (j & e & -> & Hj & _).
  rewrite length_map. rewrite Forall_forall in Hjoint.
  apply Hjoint. eapply list_elem_of_lookup_2, Hj.
Qed.

Lemma gaussian_pdf_shapes_witness :
  exists r, gaussian_pdf X_mid model_example = Ok r
    /\ length (px r) = nrows X_mid
    /\ table_shape (nrows X_mid) (length (priors model_example)) (px_given_c r)
    /\ table_shape (nrows X_mid) (length (priors model_example)) (px_and_c r)
    /\ table_shape (nrows X_mid) (length (priors model_example)) (p_c_given_x r).
Proof.
  eexists. split; [exact (gaussian_pdf_mid model_example (or_introl eq_refl)) |].
  exact (gaussian_pdf_shapes X_mid model_example _
           (gaussian_pdf_mid model_example (or_introl eq_refl))).
Defined.




Lemma py_pow_half_zero (D : nat) :
  D <> 0%nat -> py_pow_half 0 D = PyFloat 0.
Proof.
  intros HD. unfold py_pow_half.
  destruct (decide (0 < 0)) as [H | _]; [lra |].
  destruct (Nat.even D) eqn:He.
  - f_equal. apply pow_i.
    destruct D as [| [| D]]; [congruence | discriminate |].
    apply Nat.div_str_pos. lia.
  - destruct (decide (0 = 0)) as [_ | H]; [reflexivity | contradiction].
Qed.

Lemma for_range_first_raise {St} (body : St -> nat -> outcome St) (n : nat)
    (s : St) (e : exn) :
  n <> 0%nat -> body s 0%nat = Raise e -> for_range body n s = Raise e.
Proof.
  intros Hn Hb. unfold for_range. destruct n as [| n]; [congruence |].
  simpl. rewrite Hb. reflexivity.
Qed.

(** X10: a variance of zero stops the density evaluator.  If the variance
    that class 0 uses is 0 (and D >= 1), the coefficient
    [1.0 / (2 pi sigma2) ** (D / 2)] divides by zero and the call raises
    [ZeroDivisionError]. *)
Theorem gaussian_pdf_zero_variance (X : matrix) (model : GaussianClassifier)
    (mu : list R) :
  priors model <> [] ->
  means model !! 0%nat = Some mu ->
  sigma2_of model 0 = Some 0 ->
  ncols X <> 0%nat ->
  gaussian_pdf X model = Raise ZeroDivisionError.
Proof.
  intros HK Hmu Hs HD. unfold gaussian_pdf.
  rewrite (for_range_first_raise _ _ _ ZeroDivisionError); [reflexivity | |].
  - destruct (priors model); [congruence | discriminate].
  - unfold class_density.
    rewrite (getitem_ok _ _ mu Hmu). simpl.
    rewrite getitem_sigma2, Hs. simpl.
    rewrite Rmult_0_r, py_pow_half_zero by exact HD. cbn [py_div_num].
    unfold py_div. destruct (decide (0 = 0)) as [_ | H]; [reflexivity | contradiction].
Qed.

Lemma gaussian_pdf_zero_variance_witness :
  gaussian_pdf X_mid model_degenerate = Raise ZeroDivisionError.
Proof.
  apply (gaussian_pdf_zero_variance X_mid model_degenerate [0]);
    [discriminate | reflexivity | reflexivity | discriminate].
Defined.



(** * Further properties of the scorer *)

Lemma argmax_from_spec (t pre : list R) (best : R) (bi : nat) :
  pre !! bi = Some best ->
  Forall (fun u => u <= best) pre ->
  (forall i u, (i < bi)%nat -> pre !! i = Some u -> u < best) ->
  let j := argmax_from best bi (length pre) t in
  exists v, (pre ++ t) !! j = Some v
    /\ Forall (fun u => u <= v) (pre ++ t)
    /\ (forall i u, (i < j)%nat -> (pre ++ t) !! i = Some u -> u < v).
Proof.
  revert pre best bi. induction t as [| x t IH]; intros pre best bi Hbi Hle Hlt.
  - simpl. rewrite app_nil_r. eauto.
  - simpl. replace (pre ++ x :: t) with ((pre ++ [x]) ++ t)
      by (rewrite <- app_assoc; reflexivity).
    replace (S (length pre)) with (length (pre ++ [x]))
      by (rewrite length_app; simpl; lia).
    destruct (decide (best < x)) as [Hx | Hx].
    + apply (IH (pre ++ [x]) x (length pre)).
      * rewrite lookup_app_r by lia. rewrite Nat.sub_diag. reflexivity.
      * apply Forall_app. split; [| constructor; [lra | constructor]].
        eapply Forall_impl; [exact Hle |]. intros u Hu. simpl in *. lra.
      * intros i u Hi Hu. rewrite lookup_app_l in Hu by lia.
        rewrite Forall_forall in Hle.
        pose proof (Hle u (list_elem_of_lookup_2 _ _ _ Hu)). lra.
    + apply (IH (pre ++ [x]) best bi).
      * rewrite lookup_app_l by (eapply lookup_lt_Some, Hbi). exact Hbi.
      * apply Forall_app. split; [exact Hle | constructor; [lra | constructor]].
      * intros i u Hi Hu.
        rewrite lookup_app_l in Hu
          by (pose proof (lookup_lt_Some _ _ _ Hbi); lia).
        eapply Hlt; eassumption.
Qed.

Lemma argmax_spec (l : list R) (j : nat) :
  argmax l = Ok j ->
  exists v, l !! j = Some v
    /\ Forall (fun u => u <= v) l
    /\ (forall i u, (i < j)%nat -> l !! i = Some u -> u < v).
Proof.
  unfold argmax. destruct l as [| x t]; [discriminate |].
  intros [= <-].
  apply (argmax_from_spec t [x] x 0).
  - reflexivity.
  - constructor; [lra | constructor].
  - intros i u Hi. lia.
Qed.

Lemma traverse_lookup {A B} (f : A -> outcome B) (l : list A) (l' : list B) :
  traverse f l = Ok l' ->
  length l' = length l
  /\ forall q a, l !! q = Some a -> exists b, l' !! q = Some b /\ f a = Ok b.
Proof.
  revert l'. induction l as [| a l IH]; intros l' H; simpl in H.
  - injection H as <-. split; [reflexivity |]. intros q a Hq. discriminate.
  - apply bind_Ok in H. destruct H as (b & Hb & H).
    apply bind_Ok in H. destruct H as (bs & Hbs & H).
    injection H as <-. destruct (IH bs Hbs) as [Hlen Hl]. split.
    + simpl. lia.
    + intros [| q] a' Hq; simpl in *.
      * injection Hq as <-. eauto.
      * apply Hl, Hq.
Qed.

(** X12: the decision rule of the scorer.  It returns one label per
    sample; the label of a sample is an index whose posterior is the
    largest of the sample's row, and every earlier index has a strictly
    smaller posterior (ties go to the lowest class index). *)
Theorem evaluate_decision_rule
    (roc_curve : list Z -> list R -> outcome (list R * list R))
    (auc : list R -> list R -> outcome R)
    (X : matrix) (y : list Z) (model : GaussianClassifier)
    (res : EvaluationResult) :
  evaluate_classifier roc_curve auc X y model = Ok res ->
  length (y_pred res) = length y
  /\ length (posteriors res) = length y
  /\ forall q post, posteriors res !! q = Some post ->
       exists j v, y_pred res !! q = Some j /\ post !! j = Some v
         /\ Forall (fun u => u <= v) post
         /\ (forall i u, (i < j)%nat -> post !! i = Some u -> u < v).
Proof.
  unfold evaluate_classifier. intros H.
  apply bind_Ok in H. destruct H as (pdf & _ & H).
  apply bind_Ok in H. destruct H as (yp & Hyp & H).
  apply bind_Ok in H. destruct H as (err & Herr & H).
  apply bind_Ok in H. destruct H as (cn & _ & H).
  apply bind_Ok in H. destruct H as (rc & _ & H).
  injection H as <-. simpl.
  unfold argmax_axis1 in Hyp.
  destruct (decide (length (priors model) = 0%nat)); [discriminate |].
  destruct (traverse_lookup argmax _ yp Hyp) as [Hlen Hrows].
  unfold error_rate in Herr.
  destruct (decide (length yp = length y)) as [Hy |]; [| discriminate].
  split; [exact Hy |]. split; [congruence |].
  intros q post Hq. destruct (Hrows q post Hq) as (j & Hj & Harg).
  destruct (argmax_spec post j Harg) as (v & Hv & Hmax & Hfirst).
  exists j, v. auto.
Qed.

Lemma evaluate_decision_rule_witness :
  exists res,
    evaluate_classifier (fun _ _ => Ok ([], [])) (fun _ _ => Ok 0)
      X_mid [0%Z] model_example = Ok res
    /\ length (y_pred res) = length [0%Z]
    /\ length (posteriors res) = length [0%Z]
    /\ forall q post, posteriors res !! q = Some post ->
         exists j v, y_pred res !! q = Some j /\ post !! j = Some v
           /\ Forall (fun u => u <= v) post
           /\ (forall i u, (i < j)%nat -> post !! i = Some u -> u < v).
Proof.
  destruct evaluate_mid as (res & Hres & _).
  exists res. split; [exact Hres |].
  exact (evaluate_decision_rule _ _ _ _ _ res Hres).
Defined.

Lemma filter_zip_none (yp : list nat) (y : list Z) :
  length yp = length y ->
  (length (filter (fun py => Z.of_nat py.1 <> py.2) (zip yp y)) = 0%nat
   <-> map Z.of_nat yp = y).
Proof.
  revert y. induction yp as [| p yp IH]; intros y Hl.
  - destruct y; [simpl; tauto | discriminate].
  - destruct y as [| a y]; [discriminate |]. simpl in Hl.
    simpl zip. rewrite filter_cons. simpl.
    destruct (decide (Z.of_nat p <> a)) as [Hne | Heq].
    + simpl. split; [lia | intros [= H _]; contradiction].
    + assert (Z.of_nat p = a) as -> by (destruct (decide (Z.of_nat p = a)); tauto).
      rewrite IH by lia. split; [intros ->; reflexivity | intros [= H]; exact H].
Qed.

Lemma filter_length_le {A} (P : A -> Prop) `{forall a, Decision (P a)}
    (l : list A) :
  (length (filter P l) <= length l)%nat.
Proof.
  induction l as [| a l IH]; [simpl; lia |].
  rewrite filter_cons. destruct (decide (P a)); simpl; lia.
Qed.

(** X13: the error rate of the scorer on a non-empty dataset is the share
    of samples whose predicted label differs from the true one: a real
    number in [0, 1], and 0 exactly when every prediction is right. *)
Theorem evaluate_error_rate
    (roc_curve : list Z -> list R -> outcome (list R * list R))
    (auc : list R -> list R -> outcome R)
    (X : matrix) (y : list Z) (model : GaussianClassifier)
    (res : EvaluationResult) :
  evaluate_classifier roc_curve auc X y model = Ok res ->
  y <> [] ->
  exists e, error res = Fin e
    /\ e = INR (length (filter (fun py => Z.of_nat py.1 <> py.2)
                          (zip (y_pred res) y))) / INR (length y)
    /\ 0 <= e <= 1
    /\ (e = 0 <-> map Z.of_nat (y_pred res) = y).
Proof.
  unfold evaluate_classifier. intros H Hy.
  apply bind_Ok in H. destruct H as (pdf & _ & H).
  apply bind_Ok in H. destruct H as (yp & _ & H).
  apply bind_Ok in H. destruct H as (err & Herr & H).
  apply bind_Ok in H. destruct H as (cn & _ & H).
  apply bind_Ok in H. destruct H as (rc & _ & H).
  injection H as <-. simpl.
  unfold error_rate in Herr.
  destruct (decide (length yp = length y)) as [Hl |]; [| discriminate].
  injection Herr as <-.
  set (bad := length (filter (fun py => Z.of_nat py.1 <> py.2) (zip yp y))).
  assert (HN : (0 < length y)%nat) by (destruct y; [congruence | simpl; lia]).
  assert (Hbad : (bad <= length y)%nat).
  { unfold bad. etransitivity; [apply filter_length_le |].
    rewrite length_zip. lia. }
  assert (HNr : 0 < INR (length y)) by (apply lt_0_INR; exact HN).
  assert (Hbr : 0 <= INR bad <= INR (length y))
    by (split; [apply pos_INR | apply le_INR; exact Hbad]).
  exists (INR bad / INR (length y)).
  split; [| split; [reflexivity | split]].
  - unfold np_true_divide.
    destruct (decide (INR (length y) = 0)) as [H0 | _]; [lra | reflexivity].
  - split.
    + apply Rmult_le_pos; [lra | left; apply Rinv_0_lt_compat, HNr].
    + apply (Rmult_le_reg_r (INR (length y))); [exact HNr |].
      unfold Rdiv. rewrite Rmult_assoc, Rinv_l by lra. lra.
  - rewrite <- (filter_zip_none yp y Hl). fold bad. split.
    + intros He. apply INR_eq. simpl.
      apply (Rmult_eq_reg_r (/ INR (length y)));
        [| apply Rinv_neq_0_compat; lra].
      unfold Rdiv in He. lra.
    + intros ->. simpl. unfold Rdiv. lra.
Qed.

Lemma evaluate_error_rate_witness :
  exists res,
    evaluate_classifier (fun _ _ => Ok ([], [])) (fun _ _ => Ok 0)
      X_mid [0%Z] model_example = Ok res
    /\ exists e, error res = Fin e
        /\ e = INR (length (filter (fun py => Z.of_nat py.1 <> py.2)
                              (zip (y_pred res) [0%Z]))) / INR (length [0%Z])
        /\ 0 <= e <= 1
        /\ (e = 0 <-> map Z.of_nat (y_pred res) = [0%Z]).
Proof.
  destruct evaluate_mid as (res & Hres & _).
  exists res. split; [exact Hres |].
  apply (evaluate_error_rate _ _ _ _ _ res Hres). discriminate.
Defined.

(** X14: a model without classes cannot score.  The estimator returns
    such a model on an empty dataset in PER_CLASS mode; the scorer then
    raises [ValueError] on every dataset, from the argmax over an empty
    axis. *)
Theorem evaluate_empty_model
    (roc_curve : list Z -> list R -> outcome (list R * list R))
    (auc : list R -> list R -> outcome R)
    (X0 X : matrix) (y : list Z) (model : GaussianClassifier) :
  fit_gaussian_classifier X0 [] "I" = Ok model ->
  evaluate_classifier roc_curve auc X y model = Raise ValueError.
Proof.
  rewrite fit_per_class_empty. intros [= <-].
  unfold evaluate_classifier, gaussian_pdf. simpl.
  unfold for_range. simpl. reflexivity.
Qed.

Lemma evaluate_empty_model_witness :
  evaluate_classifier (fun _ _ => Ok ([], [])) (fun _ _ => Ok 0)
    X_example y_example
    {| gtype := "I"; priors := []; means := []; variances := [] |}
  = Raise ValueError.
Proof.
  exact (evaluate_empty_model _ _ (Matrix 1 []) X_example y_example _
           (fit_per_class_empty (Matrix 1 []))).
Defined.

Lemma length_filter_cons {A} (P : A -> Prop) `{forall a, Decision (P a)}
    (a : A) (l : list A) :
  length (filter P (a :: l))
  = ((if decide (P a) then 1 else 0) + length (filter P l))%nat.
Proof. rewrite filter_cons. destruct (decide (P a)); reflexivity. Qed.

Lemma sum_list_zeros {A} (ks : list A) :
  sum_list (map (fun _ => 0%nat) ks) = 0%nat.
Proof. induction ks; simpl; auto. Qed.

Lemma sum_indicator_mem (b : Z) (ks : list Z) :
  NoDup ks ->
  sum_list (map (fun p => if decide (b = p) then 1%nat else 0%nat) ks)
  = (if decide (b ∈ ks) then 1 else 0)%nat.
Proof.
  induction 1 as [| k ks Hk Hnd IH]; simpl.
  - destruct (decide (b ∈ [])) as [Hin | _]; [| reflexivity].
    apply elem_of_nil in Hin. contradiction.
  - rewrite IH. destruct (decide (b = k)) as [-> | Hne].
    + destruct (decide (k ∈ ks)); [contradiction |].
      destruct (decide (k ∈ k :: ks)) as [_ | Hn]; [reflexivity |].
      exfalso. apply Hn, elem_of_cons. tauto.
    + destruct (decide (b ∈ ks)) as [Hin | Hin];
        destruct (decide (b ∈ k :: ks)) as [Hin' | Hin']; try reflexivity.
      * exfalso. apply Hin', elem_of_cons. tauto.
      * exfalso. apply elem_of_cons in Hin'. tauto.
Qed.

Lemma sum_count_pairs (l : list (Z * Z)) (t : Z) (ks : list Z) :
  NoDup ks ->
  sum_list (map (fun p => length (filter (fun tp => tp.1 = t /\ tp.2 = p) l)) ks)
  = length (filter (fun tp => tp.1 = t /\ tp.2 ∈ ks) l).
Proof.
  intros Hnd. induction l as [| [a b] l IH].
  - simpl. apply sum_list_zeros.
  - rewrite length_filter_cons.
    erewrite map_ext by (intros p; apply length_filter_cons).
    rewrite sum_list_map_plus, IH. f_equal. simpl.
    destruct (decide (a = t)) as [-> | Hne].
    + erewrite map_ext with (g := fun p => if decide (b = p) then 1%nat else 0%nat).
      * rewrite sum_indicator_mem by exact Hnd.
        destruct (decide (b ∈ ks)), (decide (t = t /\ b ∈ ks)); tauto || reflexivity.
      * intros p. destruct (decide (t = t /\ b = p)), (decide (b = p));
          tauto || reflexivity.
    + erewrite map_ext with (g := fun _ => 0%nat).
      * rewrite sum_list_zeros.
        destruct (decide (a = t /\ b ∈ ks)); [tauto | reflexivity].
      * intros p. destruct (decide (a = t /\ b = p)); [tauto | reflexivity].
Qed.

Lemma filter_zip_first (t : Z) (y yp : list Z) :
  length yp = length y ->
  length (filter (fun tp : Z * Z => tp.1 = t) (zip y yp)) = count_label y t.
Proof.
  unfold count_label. revert yp. induction y as [| a y IH]; intros yp Hl;
    [reflexivity |].
  destruct yp as [| p yp]; [discriminate |]. simpl in Hl. simpl zip.
  rewrite !length_filter_cons. simpl. rewrite (IH yp) by lia. reflexivity.
Qed.

Lemma filter_and_le {A} (P Q : A -> Prop) `{forall a, Decision (P a)}
    `{forall a, Decision (Q a)} (l : list A) :
  (length (filter (fun a => P a /\ Q a) l) <= length (filter P l))%nat
  /\ (Forall Q l ->
      length (filter (fun a => P a /\ Q a) l) = length (filter P l)).
Proof.
  induction l as [| a l [IH1 IH2]]; [simpl; split; [lia | reflexivity] |].
  rewrite !length_filter_cons. split.
  - destruct (decide (P a /\ Q a)), (decide (P a)); simpl; try lia; tauto.
  - intros Hall. apply Forall_cons in Hall. destruct Hall as [Hq Hall].
    rewrite (IH2 Hall).
    destruct (decide (P a /\ Q a)), (decide (P a)); simpl; try lia; tauto.
Qed.

(** X15: the rows of the raw confusion matrix.  The row of the [i]-th
    label [t] of [y] has one entry per label of [y]; it counts the samples
    of class [t] whose predicted label is among the labels of [y], so its
    sum is at most the number of samples of class [t], and equal to it
    when every predicted label occurs in [y]. *)
Theorem evaluate_confusion_rows
    (roc_curve : list Z -> list R -> outcome (list R * list R))
    (auc : list R -> list R -> outcome R)
    (X : matrix) (y : list Z) (model : GaussianClassifier)
    (res : EvaluationResult) (i : nat) (t : Z) :
  evaluate_classifier roc_curve auc X y model = Ok res ->
  np_unique y !! i = Some t ->
  exists row, confusion res !! i = Some row
    /\ length row = length (np_unique y)
    /\ (sum_list row <= count_label y t)%nat
    /\ (Forall (fun p => Z.of_nat p ∈ y) (y_pred res) ->
        sum_list row = count_label y t).
Proof.
  unfold evaluate_classifier. intros H Ht.
  apply bind_Ok in H. destruct H as (pdf & _ & H).
  apply bind_Ok in H. destruct H as (yp & _ & H).
  apply bind_Ok in H. destruct H as (err & _ & H).
  apply bind_Ok in H. destruct H as (cn & Hcn & H).
  apply bind_Ok in H. destruct H as (rc & _ & H).
  injection H as <-. simpl.
  unfold confusion_matrix in Hcn.
  destruct (decide (length y = length (map Z.of_nat yp))) as [Hl |];
    [| discriminate].
  destruct (decide (np_unique y = [])); [discriminate |].
  injection Hcn as <-.
  exists (map (count_pairs y (map Z.of_nat yp) t) (np_unique y)).
  split; [rewrite list_lookup_fmap, Ht; reflexivity |].
  split; [apply length_map |].
  unfold count_pairs at 1 2.
  rewrite (sum_count_pairs (zip y (map Z.of_nat yp)) t (np_unique y))
    by apply np_unique_NoDup.
  rewrite <- (filter_zip_first t y (map Z.of_nat yp)) by (symmetry; exact Hl).
  split.
  - apply (filter_and_le (fun tp : Z * Z => tp.1 = t)
             (fun tp : Z * Z => tp.2 ∈ np_unique y)).
  - intros Hall.
    apply (filter_and_le (fun tp : Z * Z => tp.1 = t)
             (fun tp : Z * Z => tp.2 ∈ np_unique y)).
    apply Forall_forall. intros [a b] Hab. simpl.
    apply np_unique_elem.
    apply elem_of_zip_r in Hab. apply list_elem_of_fmap in Hab.
    destruct Hab as (p & -> & Hp).
    rewrite Forall_forall in Hall. apply Hall, Hp.
Qed.

Lemma evaluate_confusion_rows_witness :
  exists res,
    evaluate_classifier (fun _ _ => Ok ([], [])) (fun _ _ => Ok 0)
      X_mid [0%Z] model_example = Ok res
    /\ exists row, confusion res !! 0%nat = Some row
        /\ length row = length (np_unique [0%Z])
        /\ (sum_list row <= count_label [0%Z] 0)%nat
        /\ (Forall (fun p => Z.of_nat p ∈ [0%Z]) (y_pred res) ->
            sum_list row = count_label [0%Z] 0).
Proof.
  destruct evaluate_mid as (res & Hres & _).
  exists res. split; [exact Hres |].
  exact (evaluate_confusion_rows _ _ _ _ _ res 0 0%Z Hres eq_refl).
Defined.

(** * Further properties of the sampler *)

Lemma asarray_result (a a' : loc) (h h' : heap) :
  np_asarray_float a h = (h', Ok a') ->
  (forall l o, h !! l = Some o -> h' !! l = Some o)
  /\ exists o o', h !! a = Some o /\ h' !! a' = Some o' /\ same_data o o'.
Proof.
  intros Hrun. split.
  - intros l o Hl. pose proof (preserves_asarray a h l o Hl) as Hp.
    rewrite Hrun in Hp. exact Hp.
  - revert Hrun. unfold np_asarray_float.
    destruct (h !! a) as [[[] d | [] d | []] |] eqn:Ha; intros [= <- <-];
      eexists _, _; (split; [reflexivity |]);
      rewrite ?lookup_insert_eq, ?Ha; (split; [reflexivity |]);
      reflexivity || exact I.
Qed.

Section SamplerShape.
Context {G : Type} `{NumpyRandom G}.

Lemma sample_body_length (cs : list nat) (D : nat) (means : list (list R))
    (variances : list R) (st st' : list (list R) * G) (k : nat) :
  sample_body cs D means variances st k = Ok st' ->
  length st'.1 = length st.1.
Proof.
  unfold sample_body.
  destruct (negb (existsb (fun b => b) (map (Nat.eqb k) cs)));
    [intros [= <-]; reflexivity |].
  intros Hrun.
  apply bind_Ok in Hrun. destruct Hrun as (v & _ & Hrun).
  apply bind_Ok in Hrun. destruct Hrun as (sigma & _ & Hrun).
  apply bind_Ok in Hrun. destruct Hrun as (mu & _ & Hrun).
  destruct (rng_normal st.2 mu sigma (count_true (map (Nat.eqb k) cs)) D)
    as [draw g'].
  apply bind_Ok in Hrun. destruct Hrun as (vals & _ & Hrun).
  apply bind_Ok in Hrun. destruct Hrun as (X' & HX & Hrun).
  injection Hrun as <-. simpl.
  unfold setitem_mask in HX.
  destruct (decide (length (map (Nat.eqb k) cs) = length st.1)); [| discriminate].
  destruct (decide (length vals = count_true (map (Nat.eqb k) cs)));
    [| discriminate].
  injection HX as <-. apply length_mask_assign.
Qed.

Lemma sample_from_shape (n : nat) (priors : list R) (means : matrix)
    (variances : list R) (g : G) (empty : nat -> nat -> R)
    (X : matrix) (ys : list nat) :
  choice_in_range ->
  sample_from n priors means variances g empty = Ok (X, ys) ->
  length ys = n /\ nrows X = n /\ ncols X = ncols means
  /\ Forall (fun k => (k < length priors)%nat) ys.
Proof.
  intros Hrange. unfold sample_from.
  destruct (rng_choice g (length priors) n priors) as [drawn g1] eqn:Hch.
  intros Hrun.
  apply bind_Ok in Hrun. destruct Hrun as (cs & -> & Hrun).
  destruct (Hrange _ _ _ _ _ _ Hch) as [Hlen Hlt].
  apply bind_Ok in Hrun. destruct Hrun as (st & Hloop & Hrun).
  injection Hrun as <- <-. unfold nrows. simpl.
  repeat split; try assumption.
  unfold for_range in Hloop.
  eapply (for_enumerate_preserves (fun st => length st.1 = n));
    [| | exact Hloop].
  - intros s i a s' Hs Hbody. simpl in Hbody.
    rewrite (sample_body_length _ _ _ _ _ _ _ Hbody). exact Hs.
  - simpl. rewrite length_map, length_seq. reflexivity.
Qed.

(** The call comes down to [sample_from] on the normalized data of the
    priors and on the data of the means. *)
Lemma gm_sample_outcome (n : nat) (priors means variances : loc)
    (rs : option Z) (w : world G) (h : heap) (c c' : container)
    (pd : list R) (md : matrix) (res : matrix * list nat) :
  h !! priors = Some (Arr1 c pd) ->
  h !! means = Some (Arr2 c' md) ->
  (gm_sample n priors means variances rs w h).2 = Ok res ->
  exists pd' vd,
    length pd' = length pd
    /\ sample_from n pd' md vd (default_rng rs w) (uninit w) = Ok res.
Proof.
  intros Hp Hm. unfold gm_sample.
  unfold mbind at 1, hstate_bind at 1.
  destruct (np_asarray_float priors h) as [h1 [p | e |]] eqn:E1;
    try (simpl; discriminate).
  destruct (asarray_result priors p h h1 E1) as [Hpres1 (o & o' & Ho & Ho' & Hsame)].
  rewrite Hp in Ho. injection Ho as <-.
  destruct o' as [c1 pd1 | c1 pd1 | c1]; try contradiction.
  simpl in Hsame. subst pd1.
  pose proof (Hpres1 _ _ Hm) as Hm1.
  assert (Hpm : p <> means) by (intros ->; congruence).
  unfold mbind at 1, hstate_bind at 1.
  unfold idiv_sum at 1. rewrite Ho'.
  assert (Hidiv : exists o2,
            (match traverse (fun x => np_div x (rsum pd)) pd with
             | Ok d' => (<[p := Arr1 c1 d']> h1, Ok tt)
             | _ => (<[p := ArrNonReal c1]> h1, Ok tt)
             end) = (<[p := o2]> h1, Ok tt)
            /\ forall c2 d2, o2 = Arr1 c2 d2 -> length d2 = length pd).
  { destruct (traverse (fun x => np_div x (rsum pd)) pd) as [pd' | e |] eqn:Etr.
    - exists (Arr1 c1 pd'). split; [reflexivity |].
      intros c2 d2 [= _ <-]. apply (traverse_lookup _ _ _ Etr).
    - exists (ArrNonReal c1). split; [reflexivity | discriminate].
    - exists (ArrNonReal c1). split; [reflexivity | discriminate]. }
  destruct Hidiv as (o2 & -> & Hlen2).
  set (h2 := <[p := o2]> h1).
  assert (Hp2 : h2 !! p = Some o2) by apply lookup_insert_eq.
  assert (Hm2 : h2 !! means = Some (Arr2 c' md))
    by (unfold h2; rewrite lookup_insert_ne by exact Hpm; exact Hm1).
  unfold mbind at 1, hstate_bind at 1.
  destruct (np_asarray_float means h2) as [h3 [m | e |]] eqn:E3;
    try (simpl; discriminate).
  destruct (asarray_result means m h2 h3 E3) as [Hpres3 (o & o' & Ho & Hm3 & Hsame)].
  rewrite Hm2 in Ho. injection Ho as <-.
  destruct o' as [c3 md3 | c3 md3 | c3]; try contradiction.
  simpl in Hsame. subst md3.
  pose proof (Hpres3 _ _ Hp2) as Hp3.
  unfold mbind at 1, hstate_bind at 1.
  destruct (np_asarray_float variances h3) as [h4 [v | e |]] eqn:E4;
    try (simpl; discriminate).
  destruct (asarray_result variances v h3 h4 E4) as [Hpres4 _].
  pose proof (Hpres4 _ _ Hp3) as Hp4. pose proof (Hpres4 _ _ Hm3) as Hm4.
  unfold mbind at 1, hstate_bind at 1. unfold read_p at 1. rewrite Hp4.
  destruct o2 as [c2 pd' | c2 md2 | c2]; try (simpl; discriminate).
  unfold mbind at 1, hstate_bind at 1. unfold read2 at 1. rewrite Hm4.
  unfold mbind at 1, hstate_bind at 1. unfold read1 at 1.
  destruct (h4 !! v) as [[cv vd | cv vd | cv] |]; try (simpl; discriminate).
  unfold lift. simpl. intros Hres.
  exists pd', vd. split; [exact (Hlen2 c2 pd' eq_refl) | exact Hres].
Qed.

(** X16: the shape of the dataset drawn.  When the call returns (X, y) for
    a mixture of K components and a means array of D columns, X has
    n_samples rows and D columns, y has n_samples entries and every label
    is a component index below K. *)
Theorem gm_sample_shapes (n : nat) (priors means variances : loc)
    (rs : option Z) (w : world G) (h : heap) (c c' : container)
    (pd : list R) (md : matrix) (X : matrix) (ys : list nat) :
  choice_in_range ->
  h !! priors = Some (Arr1 c pd) ->
  h !! means = Some (Arr2 c' md) ->
  (gm_sample n priors means variances rs w h).2 = Ok (X, ys) ->
  nrows X = n /\ ncols X = ncols md /\ length ys = n
  /\ Forall (fun k => (k < length pd)%nat) ys.
Proof.
  intros Hrange Hp Hm Hrun.
  destruct (gm_sample_outcome n priors means variances rs w h c c' pd md
              (X, ys) Hp Hm Hrun) as (pd' & vd & Hlen & Hfrom).
  destruct (sample_from_shape n pd' md vd _ _ X ys Hrange Hfrom)
    as (Hy & HX & HD & Hlt).
  rewrite Hlen in Hlt. auto.
Qed.
End SamplerShape.

Lemma py_sqrt_nonneg (v : R) : 0 <= v -> py_sqrt v = Ok (sqrt v).
Proof.
  intros Hv. unfold py_sqrt.
  destruct (decide (v < 0)) as [H | _]; [lra | reflexivity].
Qed.

Lemma sample_body_counter (cs : list nat) (D : nat) (means : list (list R))
    (variances : list R) (X : list (list R)) (g k : nat) (v : R)
    (mu : list R) :
  existsb (fun b => b) (map (Nat.eqb k) cs) = true ->
  variances !! k = Some v -> 0 <= v -> means !! k = Some mu ->
  length X = length cs ->
  sample_body (G := nat) cs D means variances (X, g) k
  = Ok (mask_assign (map (Nat.eqb k) cs) X
          (replicate (count_true (map (Nat.eqb k) cs)) mu), S g).
Proof.
  intros Hany Hv Hpos Hmu Hlen. unfold sample_body. rewrite Hany. simpl negb.
  cbv iota. rewrite (getitem_ok _ _ v Hv). cbn [mbind outcome_bind].
  rewrite py_sqrt_nonneg by exact Hpos. cbn [mbind outcome_bind].
  rewrite (getitem_ok _ _ mu Hmu). cbn [mbind outcome_bind].
  simpl rng_normal. cbn [mbind outcome_bind fst snd].
  unfold setitem_mask. rewrite length_map, length_replicate.
  destruct (decide (length cs = length X)) as [_ | Hne]; [| congruence].
  destruct (decide (count_true (map (Nat.eqb k) cs)
                    = count_true (map (Nat.eqb k) cs))) as [_ | Hne];
    [reflexivity | contradiction].
Qed.

(** A run of the sampler with the toy generator on the heap of [main]:
    two samples, one from each component. *)
Lemma gm_sample_main_run (w : world nat) :
  (gm_sample (G := nat) 2 0 1 2 (Some 37%Z) w heap_main).2
  = Ok (Matrix 1 [[0]; [2]], [0%nat; 1%nat]).
Proof.
  unfold gm_sample.
  unfold mbind at 1, hstate_bind at 1.
  unfold np_asarray_float at 1. rewrite heap_main_priors.
  unfold mbind at 1, hstate_bind at 1.
  unfold idiv_sum at 1. rewrite heap_main_priors.
  rewrite traverse_np_div by (unfold rsum; simpl; lra).
  set (pd := map (fun s => s / rsum [2; 1]) [2; 1]).
  set (h2 := <[0%nat := Arr1 NdFloat64 pd]> heap_main).
  assert (H0 : h2 !! 0%nat = Some (Arr1 NdFloat64 pd)) by reflexivity.
  assert (H1 : h2 !! 1%nat = Some (Arr2 NdFloat64 (Matrix 1 [[0]; [2]])))
    by reflexivity.
  assert (H2 : h2 !! 2%nat = Some (Arr1 NdFloat64 [0.5; 3])) by reflexivity.
  unfold mbind at 1, hstate_bind at 1.
  unfold np_asarray_float at 1. rewrite H1.
  unfold mbind at 1, hstate_bind at 1.
  unfold np_asarray_float at 1. rewrite H2.
  unfold mbind at 1, hstate_bind at 1. unfold read_p at 1. rewrite H0.
  unfold mbind at 1, hstate_bind at 1. unfold read2 at 1. rewrite H1.
  unfold mbind at 1, hstate_bind at 1. unfold read1 at 1. rewrite H2.
  unfold lift. cbn [snd].
  unfold sample_from. simpl rng_choice. cbn [fst snd mbind outcome_bind].
  unfold for_range. simpl seq. cbn [for_enumerate rows ncols].
  rewrite (sample_body_counter _ _ _ _ _ _ 0 0.5 [0]);
    [| reflexivity | reflexivity | lra | reflexivity | reflexivity].
  cbn [mbind outcome_bind].
  rewrite (sample_body_counter _ _ _ _ _ _ 1 3 [2]);
    [| reflexivity | reflexivity | lra | reflexivity | reflexivity].
  reflexivity.
Qed.

(** X17: what the call leaves alone.  Every object other than the priors
    argument is unchanged after the call, whatever the outcome (means and
    variances are only read, and copies are fresh objects); a priors
    argument that is not a float64 array (a list or an integer array, of
    any dimension) is unchanged too, since [np.asarray] copies it before
    the in-place division.  Only a float64 priors array can be written. *)
Theorem gm_sample_leaves_other_objects {G : Type} `{NumpyRandom G}
    (n : nat) (priors means variances : loc) (rs : option Z) (w : world G)
    (h : heap) :
  (forall l o, l <> priors -> h !! l = Some o ->
     (gm_sample n priors means variances rs w h).1 !! l = Some o)
  /\ (forall o, h !! priors = Some o -> container_of o <> NdFloat64 ->
        (gm_sample n priors means variances rs w h).1 !! priors = Some o).
Proof.
  split.
  - intros l o Hne Hl. apply gm_sample_frame; [exact Hl |].
    intros Heq. contradiction.
  - intros o Hp Hc. apply gm_sample_frame; [exact Hp |].
    intros _. exact Hc.
Qed.

Lemma gm_sample_shapes_witness :
  nrows (Matrix 1 [[0]; [2]]) = 2%nat
  /\ ncols (Matrix 1 [[0]; [2]]) = ncols (Matrix 1 [[0]; [2]])
  /\ length [0%nat; 1%nat] = 2%nat
  /\ Forall (fun k => (k < length [2; 1])%nat) [0%nat; 1%nat].
Proof.
  exact (gm_sample_shapes (G := nat) 2 0 1 2 (Some 37%Z)
           (World 0%nat (fun _ _ => 0)) heap_main NdFloat64 NdFloat64
           [2; 1] (Matrix 1 [[0]; [2]]) (Matrix 1 [[0]; [2]]) [0%nat; 1%nat]
           counter_choice_in_range eq_refl eq_refl
           (gm_sample_main_run (World 0%nat (fun _ _ => 0)))).
Defined.

(** * The ROC branch of the scorer *)





(** * Errors of the sampler *)

Lemma asarray_arr1 (a : loc) (h : heap) (c : container) (d : list R) :
  h !! a = Some (Arr1 c d) ->
  exists h' a' c',
    np_asarray_float a h = (h', Ok a')
    /\ h' !! a' = Some (Arr1 c' d)
    /\ (forall l o, h !! l = Some o -> h' !! l = Some o)
    /\ (a' = a \/ h !! a' = None).
Proof.
  intros Ha.
  assert (Hfresh : h !! fresh (dom h) = None).
  { apply not_elem_of_dom, is_fresh. }
  assert (Hkeep : forall l o, h !! l = Some o ->
            <[fresh (dom h) := Arr1 NdFloat64 d]> h !! l = Some o).
  { intros l o Hl.
    rewrite lookup_insert_ne by (eapply fresh_lookup_ne; exact Hl). exact Hl. }
  unfold np_asarray_float. rewrite Ha.
  destruct c.
  - exists h, a, NdFloat64. auto.
  - eexists _, _, NdFloat64. split; [reflexivity |].
    split; [apply lookup_insert_eq |]. auto.
  - eexists _, _, NdFloat64. split; [reflexivity |].
    split; [apply lookup_insert_eq |]. auto.
Qed.

Lemma asarray_arr2 (a : loc) (h : heap) (c : container) (d : matrix) :
  h !! a = Some (Arr2 c d) ->
  exists h' a' c',
    np_asarray_float a h = (h', Ok a')
    /\ h' !! a' = Some (Arr2 c' d)
    /\ (forall l o, h !! l = Some o -> h' !! l = Some o).
Proof.
  intros Ha.
  assert (Hkeep : forall l o, h !! l = Some o ->
            <[fresh (dom h) := Arr2 NdFloat64 d]> h !! l = Some o).
  { intros l o Hl.
    rewrite lookup_insert_ne by (eapply fresh_lookup_ne; exact Hl). exact Hl. }
  unfold np_asarray_float. rewrite Ha.
  destruct c.
  - exists h, a, NdFloat64. auto.
  - eexists _, _, NdFloat64. split; [reflexivity |].
    split; [apply lookup_insert_eq |]. auto.
  - eexists _, _, NdFloat64. split; [reflexivity |].
    split; [apply lookup_insert_eq |]. auto.
Qed.

Lemma existsb_eqb_elem (k : nat) (cs : list nat) :
  existsb (fun b => b) (map (Nat.eqb k) cs) = true <-> k ∈ cs.
Proof.
  induction cs as [| a cs IH]; simpl.
  - split; [discriminate | intros Hin; inversion Hin].
  - rewrite orb_true_iff, IH, elem_of_cons, Nat.eqb_eq. tauto.
Qed.

Lemma for_range_skip_raise {St} (body : St -> nat -> outcome St) (n k : nat)
    (s : St) (e : exn) :
  (k < n)%nat ->
  (forall j, (j < k)%nat -> body s j = Ok s) ->
  body s k = Raise e ->
  for_range body n s = Raise e.
Proof.
  intros Hk Hskip Hraise. unfold for_range.
  assert (Hgen : forall m i, (i <= k)%nat -> (k < i + m)%nat ->
            for_enumerate (fun s k (_ : nat) => body s k) i (seq i m) s
            = Raise e).
  { induction m as [| m IH]; intros i Hi Hm; [lia |]. simpl.
    destruct (decide (i = k)) as [-> | Hne].
    - rewrite Hraise. reflexivity.
    - rewrite Hskip by lia. simpl. apply IH; lia. }
  apply Hgen; lia.
Qed.

Section SamplerErrors.
Context {G : Type} `{NumpyRandom G}.

(** The call on three argument objects, with priors of non-zero sum and a
    variances object that is not the priors object: [sample_from] on the
    normalized priors. *)
Lemma gm_sample_run (n : nat) (priors means variances : loc)
    (rs : option Z) (w : world G) (h : heap) (c c' c'' : container)
    (pd vd : list R) (md : matrix) :
  h !! priors = Some (Arr1 c pd) -> rsum pd <> 0 ->
  h !! means = Some (Arr2 c' md) ->
  h !! variances = Some (Arr1 c'' vd) -> variances <> priors ->
  (gm_sample n priors means variances rs w h).2
  = sample_from n (map (fun p => p / rsum pd) pd) md vd
      (default_rng rs w) (uninit w).
Proof.
  intros Hp Hsum Hm Hv Hvp. unfold gm_sample.
  destruct (asarray_arr1 priors h c pd Hp)
    as (h1 & p & c1 & E1 & Hp1 & Hkeep1 & Hpfresh).
  assert (Hpv : variances <> p).
  { destruct Hpfresh as [-> | Hnone]; [exact Hvp |]. congruence. }
  assert (Hpm : means <> p).
  { intros <-. rewrite (Hkeep1 _ _ Hm) in Hp1. discriminate. }
  unfold mbind at 1, hstate_bind at 1. rewrite E1.
  unfold mbind at 1, hstate_bind at 1.
  unfold idiv_sum at 1. rewrite Hp1.
  rewrite traverse_np_div by exact Hsum.
  set (pd' := map (fun s => s / rsum pd) pd).
  set (h2 := <[p := Arr1 c1 pd']> h1).
  assert (Hp2 : h2 !! p = Some (Arr1 c1 pd')) by apply lookup_insert_eq.
  assert (Hm2 : h2 !! means = Some (Arr2 c' md)).
  { unfold h2. rewrite lookup_insert_ne by congruence. apply Hkeep1, Hm. }
  assert (Hv2 : h2 !! variances = Some (Arr1 c'' vd)).
  { unfold h2. rewrite lookup_insert_ne by congruence. apply Hkeep1, Hv. }
  destruct (asarray_arr2 means h2 c' md Hm2)
    as (h3 & m & c3 & E3 & Hm3 & Hkeep3).
  unfold mbind at 1, hstate_bind at 1. rewrite E3.
  destruct (asarray_arr1 variances h3 c'' vd (Hkeep3 _ _ Hv2))
    as (h4 & v & c4 & E4 & Hv4 & Hkeep4 & _).
  unfold mbind at 1, hstate_bind at 1. rewrite E4.
  unfold mbind at 1, hstate_bind at 1. unfold read_p at 1.
  rewrite (Hkeep4 _ _ (Hkeep3 _ _ Hp2)).
  unfold mbind at 1, hstate_bind at 1. unfold read2 at 1.
  rewrite (Hkeep4 _ _ Hm3).
  unfold mbind at 1, hstate_bind at 1. unfold read1 at 1. rewrite Hv4.
  reflexivity.
Qed.

(** X19: a negative variance stops the sampler only if its component is
    drawn.  The loop skips the components that no sample was assigned to;
    at the first component [k] that was drawn, [math.sqrt] of a negative
    [variances[k]] raises [ValueError] and no dataset is returned. *)
Theorem gm_sample_negative_variance (n : nat) (priors means variances : loc)
    (rs : option Z) (w : world G) (h : heap) (c c' c'' : container)
    (pd vd : list R) (md : matrix) (cs : list nat) (g1 : G) (k : nat)
    (v : R) :
  h !! priors = Some (Arr1 c pd) -> rsum pd <> 0 ->
  h !! means = Some (Arr2 c' md) ->
  h !! variances = Some (Arr1 c'' vd) -> variances <> priors ->
  rng_choice (default_rng rs w) (length pd) n
    (map (fun p => p / rsum pd) pd) = (Ok cs, g1) ->
  (k < length pd)%nat -> k ∈ cs -> (forall j, (j < k)%nat -> j ∉ cs) ->
  vd !! k = Some v -> v < 0 ->
  (gm_sample n priors means variances rs w h).2 = Raise ValueError.
Proof.
  intros Hp Hsum Hm Hv Hvp Hch Hk Hin Hfirst Hvk Hneg.
  rewrite (gm_sample_run n priors means variances rs w h c c' c'' pd vd md)
    by assumption.
  unfold sample_from. rewrite length_map, Hch. cbn [mbind outcome_bind].
  rewrite (for_range_skip_raise _ _ k _ ValueError); [reflexivity | exact Hk | |].
  - intros j Hj. unfold sample_body.
    destruct (existsb (fun b => b) (map (Nat.eqb j) cs)) eqn:Hex;
      [| reflexivity].
    apply existsb_eqb_elem in Hex. exfalso. exact (Hfirst j Hj Hex).
  - unfold sample_body.
    rewrite (proj2 (existsb_eqb_elem k cs) Hin). simpl negb. cbv iota.
    rewrite (getitem_ok _ _ v Hvk). cbn [mbind outcome_bind].
    unfold py_sqrt. destruct (decide (v < 0)) as [_ | Hge];
      [reflexivity | contradiction].
Qed.
End SamplerErrors.

Lemma gm_sample_negative_variance_witness :
  (gm_sample (G := nat) 2 0 1 2 (Some 37%Z) (World 0%nat (fun _ _ => 0))
     heap_negative).2 = Raise ValueError.
Proof.
  apply (gm_sample_negative_variance (G := nat) 2 0 1 2 (Some 37%Z)
           (World 0%nat (fun _ _ => 0)) heap_negative
           NdFloat64 NdFloat64 NdFloat64 [2; 1] [-1; 3] (Matrix 1 [[0]; [2]])
           [0%nat; 1%nat] 38%nat 0%nat (-1)).
  - reflexivity.
  - unfold rsum. simpl. lra.
  - reflexivity.
  - reflexivity.
  - discriminate.
  - reflexivity.
  - simpl. lia.
  - apply elem_of_cons. left. reflexivity.
  - intros j Hj. lia.
  - reflexivity.
  - lra.
Defined.

(** * The sampler feeding the estimator *)

Lemma NoDup_bounded_length (l : list Z) (K : nat) :
  NoDup l -> Forall (fun z => (0 <= z < Z.of_nat K)%Z) l ->
  (length l <= K)%nat.
Proof.
  intros Hnd Hb.
  assert (Hsub : l ⊆+ map Z.of_nat (seq 0 K)).
  { apply NoDup_submseteq; [exact Hnd |].
    intros z Hz. rewrite Forall_forall in Hb. specialize (Hb z Hz).
    apply list_elem_of_fmap. exists (Z.to_nat z).
    split; [lia |]. apply elem_of_seq. lia. }
  apply submseteq_length in Hsub.
  rewrite length_map, length_seq in Hsub. exact Hsub.
Qed.

Section Pipeline.
Context {G : Type} `{NumpyRandom G}.

(** X20: the dataset drawn by the sampler is one the estimator accepts.
    When the sampler returns (X, y) with n_samples >= 1 from a mixture of
    K components in dimension D >= 1, the estimator returns a model on
    (X, y) in either mode, with at least one class and at most K classes
    (a component that drew no sample is not a class of the model). *)
Theorem gm_sample_then_fit (n : nat) (p_arg m_arg v_arg : loc)
    (rs : option Z) (w : world G) (h : heap) (c c' : container)
    (pd : list R) (md : matrix) (X : matrix) (ys : list nat) (g : string) :
  choice_in_range ->
  h !! p_arg = Some (Arr1 c pd) ->
  h !! m_arg = Some (Arr2 c' md) ->
  (gm_sample n p_arg m_arg v_arg rs w h).2 = Ok (X, ys) ->
  n <> 0%nat -> ncols md <> 0%nat ->
  g = "I"%string \/ g = "i"%string ->
  exists m,
    fit_gaussian_classifier X (map Z.of_nat ys) g = Ok m
    /\ (1 <= length (priors m) <= length pd)%nat.
Proof.
  intros Hrange Hp Hm Hrun Hn HD Hg.
  destruct (gm_sample_outcome n p_arg m_arg v_arg rs w h c c' pd md
              (X, ys) Hp Hm Hrun) as (pd' & vd & Hlen & Hfrom).
  destruct (sample_from_shape n pd' md vd _ _ X ys Hrange Hfrom)
    as (Hy & HX & HDX & Hlt).
  rewrite Hlen in Hlt.
  assert (Hlen' : length (map Z.of_nat ys) = nrows X)
    by (rewrite length_map; congruence).
  assert (HD' : ncols X <> 0%nat) by congruence.
  assert (Hne : map Z.of_nat ys <> []).
  { destruct ys; [simpl in Hy; congruence | discriminate]. }
  assert (HK : (1 <= length (np_unique (map Z.of_nat ys)) <= length pd)%nat).
  { split.
    - destruct (np_unique_nonempty _ Hne) as (k & ks & -> & _). simpl. lia.
    - apply NoDup_bounded_length; [apply np_unique_NoDup |].
      apply Forall_forall. intros z Hz.
      apply (proj1 (np_unique_elem z _)) in Hz.
      apply list_elem_of_fmap in Hz. destruct Hz as (k & -> & Hk).
      rewrite Forall_forall in Hlt. specialize (Hlt k Hk). lia. }
  destruct Hg as [-> | ->].
  - rewrite fit_per_class_ok by assumption.
    eexists. split; [reflexivity |]. simpl. rewrite length_map. exact HK.
  - rewrite fit_shared_ok by assumption.
    eexists. split; [reflexivity |]. simpl. rewrite length_map. exact HK.
Qed.
End Pipeline.

Lemma gm_sample_then_fit_witness :
  exists m,
    fit_gaussian_classifier (Matrix 1 [[0]; [2]])
      (map Z.of_nat [0%nat; 1%nat]) "I" = Ok m
    /\ (1 <= length (priors m) <= length [2; 1])%nat.
Proof.
  apply (gm_sample_then_fit (G := nat) 2 0 1 2 (Some 37%Z)
           (World 0%nat (fun _ _ => 0)) heap_main NdFloat64 NdFloat64
           [2; 1] (Matrix 1 [[0]; [2]]) (Matrix 1 [[0]; [2]]) [0%nat; 1%nat]
           "I" counter_choice_in_range eq_refl eq_refl
           (gm_sample_main_run (World 0%nat (fun _ _ => 0))));
    [discriminate | discriminate | left; reflexivity].
Defined.

(** * The density evaluator within the range of float64 *)

Lemma DBL_MAX_ge_1 : 1 <= DBL_MAX.
Proof. unfold DBL_MAX. lra. Qed.

Lemma fl_fin (v : R) : - DBL_MAX <= v <= DBL_MAX -> fl v = Fin v.
Proof.
  intros [Hlo Hhi]. unfold fl.
  destruct (decide (DBL_MAX < v)) as [H | _]; [lra |].
  destruct (decide (v < - DBL_MAX)) as [H | _]; [lra | reflexivity].
Qed.





















(** * Line 117 and the range of float64 *)

(** The power of line 117 for a positive variance whose product with
    [2 pi] is in the range. *)
Lemma py_pow_half_f64_pos (b : R) (D : nat) :
  0 < b -> b <= DBL_MAX -> D <> 0%nat ->
  py_pow_half_f64 (fl b) D
  = (x ← pow_range (Rpower b (INR D / 2)); Ok (PyFloat64 (Fin x))).
Proof.
  intros Hb Hmax HD. pose proof DBL_MAX_ge_1.
  rewrite fl_fin by lra. unfold py_pow_half_f64.
  destruct (decide (D = 0%nat)) as [H0 | _]; [contradiction |].
  destruct (decide (b = 0)) as [H0 | _]; [lra |].
  destruct (decide (0 < b)) as [_ | H0]; [reflexivity | contradiction].
Qed.

Lemma pow_range_overflow (v : R) :
  DBL_MAX < v -> pow_range v = Raise OverflowError.
Proof.
  intros H. unfold pow_range.
  destruct (decide (DBL_MAX < v)); [reflexivity | contradiction].
Qed.

Lemma pow_range_underflow (v : R) :
  v < DBL_TRUE_MIN / 2 -> pow_range v = Ok 0.
Proof.
  intros H. unfold pow_range.
  assert (DBL_TRUE_MIN / 2 <= DBL_MAX) by (unfold DBL_TRUE_MIN, DBL_MAX; lra).
  destruct (decide (DBL_MAX < v)); [lra |].
  destruct (decide (v < DBL_TRUE_MIN / 2)); [reflexivity | contradiction].
Qed.


(** The pass of the loop for class [k] stops at line 117 with whatever
    the power and the division raise. *)
Lemma class_density_f64_raise (X : matrix) (model : GaussianClassifier)
    (k : nat) (mu : list R) (s : R) (e : exn) :
  means model !! k = Some mu ->
  sigma2_of model k = Some s ->
  (p ← py_pow_half_f64 (fl (2 * PI * s)) (ncols X); py_div_f64 1 p)
  = Raise e ->
  class_density_f64 X model k = Raise e.
Proof.
  intros Hmu Hs Hraise. unfold class_density_f64.
  rewrite (getitem_ok _ _ mu Hmu). cbn [mbind outcome_bind].
  rewrite getitem_sigma2, Hs. cbn [mbind outcome_bind].
  destruct (py_pow_half_f64 (fl (2 * PI * s)) (ncols X)) as [p | e' |];
    cbn [mbind outcome_bind] in *;
    [| injection Hraise as ->; reflexivity | discriminate].
  rewrite Hraise. reflexivity.
Qed.

Lemma gaussian_pdf_f64_first_raise (X : matrix) (model : GaussianClassifier)
    (e : exn) :
  priors model <> [] ->
  class_density_f64 X model 0 = Raise e ->
  gaussian_pdf_f64 X model = Raise e.
Proof.
  intros HK Hraise. unfold gaussian_pdf_f64.
  rewrite (for_range_first_raise _ _ _ e); [reflexivity | |].
  - destruct (priors model); [congruence | discriminate].
  - rewrite Hraise. reflexivity.
Qed.

(** A base below 1 raised to a larger power is smaller. *)
Lemma Rpower_base_lt_1 (b e1 e2 : R) :
  0 < b < 1 -> e1 <= e2 -> Rpower b e2 <= Rpower b e1.
Proof.
  intros [Hb0 Hb1] He. unfold Rpower.
  assert (Hln : ln b < 0).
  { rewrite <- ln_1. apply ln_increasing; assumption. }
  destruct (Req_dec (e2 * ln b) (e1 * ln b)) as [-> | Hne]; [lra |].
  left. apply exp_increasing. nra.
Qed.

(** With the estimator's floor for a variance, the power of line 117
    underflows to [0.0] from 80 dimensions on. *)
Lemma floor_power_underflow (D : nat) :
  (80 <= D)%nat ->
  Rpower (2 * PI * 1e-9) (INR D / 2) < DBL_TRUE_MIN / 2.
Proof.
  intros HD. pose proof PI_gt_3 as Hpi3. pose proof PI_4 as Hpi4.
  assert (Hb : 0 < 2 * PI * 1e-9 < 1) by lra.
  assert (He : INR 40 <= INR D / 2).
  { assert (H80 : INR 80 <= INR D) by (apply le_INR; exact HD).
    rewrite (INR_IZR_INZ 80) in H80. rewrite (INR_IZR_INZ 40).
    replace (Z.of_nat 80) with 80%Z in H80 by reflexivity.
    replace (Z.of_nat 40) with 40%Z by reflexivity. lra. }
  apply Rle_lt_trans with (Rpower (2 * PI * 1e-9) (INR 40)).
  - apply Rpower_base_lt_1; assumption.
  - rewrite Rpower_pow by lra.
    apply Rle_lt_trans with (8e-9 ^ 40).
    + apply pow_incr. lra.
    + unfold DBL_TRUE_MIN. lra.
Qed.

(** * Where the density evaluator leaves the reals *)

Lemma div_floor_raises :
  py_div_f64 1 (PyFloat64 (Fin 0)) = Raise ZeroDivisionError.
Proof.
  simpl. destruct (decide (0 = 0)) as [_ | H]; [reflexivity | contradiction].
Qed.

(** What the estimator returns in PER_CLASS mode when its first class has
    a single sample. *)
Lemma fit_single_sample_model (X : matrix) (y : list Z)
    (m : GaussianClassifier) (k : Z) :
  wf_dataset X y ->
  fit_gaussian_classifier X y "I" = Ok m ->
  np_unique y !! 0%nat = Some k -> count_label y k = 1%nat ->
  priors m <> []
  /\ means m !! 0%nat = Some (class_mean X y k)
  /\ sigma2_of m 0 = Some 1e-9.
Proof.
  intros [Hwf Hlen] Hfit Hk Hone.
  assert (Hy : y <> []) by (intros ->; discriminate Hk).
  assert (HD : ncols X <> 0%nat).
  { intros HD. rewrite fit_zero_cols in Hfit; try assumption; [discriminate |].
    reflexivity. }
  rewrite fit_per_class_ok in Hfit by assumption. injection Hfit as <-.
  unfold sigma2_of. simpl.
  destruct (np_unique y) as [| k0 ks]; [discriminate |].
  injection Hk as ->. simpl. split; [discriminate |]. split; [reflexivity |].
  rewrite (single_sample_spread X y k Hwf Hlen Hone).
  f_equal. unfold np_clip_min, eps_var. apply Rmax_right. lra.
Qed.

(** X7: the estimator's floor does not keep the density evaluator away
    from a division by zero.  A model fitted in PER_CLASS mode whose first
    class has a single sample holds the variance floor 1e-9 for it; on
    queries with 80 columns or more the power [(2 pi sigma2) ** (D / 2)]
    underflows to [0.0] and the call raises [ZeroDivisionError]. *)
Theorem fit_floor_underflow (X Xq : matrix) (y : list Z)
    (m : GaussianClassifier) (k : Z) :
  wf_dataset X y ->
  fit_gaussian_classifier X y "I" = Ok m ->
  np_unique y !! 0%nat = Some k -> count_label y k = 1%nat ->
  (80 <= ncols Xq)%nat ->
  gaussian_pdf_f64 Xq m = Raise ZeroDivisionError.
Proof.
  intros Hwf Hfit Hk Hone HD.
  destruct (fit_single_sample_model X y m k Hwf Hfit Hk Hone)
    as (HK & Hmu & Hs).
  pose proof PI_gt_3 as Hpi3. pose proof PI_4 as Hpi4.
  apply gaussian_pdf_f64_first_raise; [exact HK |].
  apply (class_density_f64_raise Xq m 0 _ 1e-9 _ Hmu Hs).
  rewrite py_pow_half_f64_pos; [| lra | unfold DBL_MAX; lra | lia].
  rewrite pow_range_underflow by (apply floor_power_underflow, HD).
  cbn [mbind outcome_bind]. apply div_floor_raises.
Qed.

Lemma fit_floor_underflow_witness :
  exists m,
    fit_gaussian_classifier X_wide [0%Z] "I" = Ok m
    /\ gaussian_pdf_f64 X_wide m = Raise ZeroDivisionError.
Proof.
  assert (Hwf : wf_dataset X_wide [0%Z])
    by (split; [repeat constructor | reflexivity]).
  destruct (fit_per_class_returns X_wide [0%Z]) as [m Hm];
    [reflexivity | discriminate |].
  exists m. split; [exact Hm |].
  apply (fit_floor_underflow X_wide X_wide [0%Z] m 0%Z Hwf Hm);
    [reflexivity | reflexivity | simpl; lia].
Defined.

(** X21: line 117 has no guard for the range of float64.  For a class 0
    with a positive variance, the call raises [OverflowError] when the
    power [(2 pi sigma2) ** (D / 2)] is above the largest float64 and
    [ZeroDivisionError] when it is below half the smallest one. *)
Theorem gaussian_pdf_coefficient_range (X : matrix)
    (model : GaussianClassifier) (mu : list R) (s : R) :
  priors model <> [] ->
  means model !! 0%nat = Some mu ->
  sigma2_of model 0 = Some s ->
  0 < s -> 2 * PI * s <= DBL_MAX -> ncols X <> 0%nat ->
  (DBL_MAX < Rpower (2 * PI * s) (INR (ncols X) / 2) ->
   gaussian_pdf_f64 X model = Raise OverflowError)
  /\ (Rpower (2 * PI * s) (INR (ncols X) / 2) < DBL_TRUE_MIN / 2 ->
      gaussian_pdf_f64 X model = Raise ZeroDivisionError).
Proof.
  intros HK Hmu Hs Hpos Hb HD.
  assert (Hb0 : 0 < 2 * PI * s) by (apply two_pi_pos, Hpos).
  split; intros Hrange;
    apply gaussian_pdf_f64_first_raise; try exact HK;
    apply (class_density_f64_raise X model 0 mu s _ Hmu Hs);
    rewrite py_pow_half_f64_pos by assumption.
  - rewrite pow_range_overflow by exact Hrange. reflexivity.
  - rewrite pow_range_underflow by exact Hrange.
    cbn [mbind outcome_bind]. apply div_floor_raises.
Qed.

Lemma gaussian_pdf_coefficient_range_witness :
  gaussian_pdf_f64 X_4d model_big = Raise OverflowError.
Proof.
  pose proof PI_gt_3 as Hpi3. pose proof PI_4 as Hpi4.
  apply (proj1 (gaussian_pdf_coefficient_range X_4d model_big
                  [0; 0; 0; 0] 1e300 ltac:(discriminate) eq_refl eq_refl
                  ltac:(lra) ltac:(unfold DBL_MAX; lra)
                  ltac:(discriminate))).
  replace (INR (ncols X_4d) / 2) with (INR 2) by (simpl; lra).
  rewrite Rpower_pow by lra.
  apply Rlt_le_trans with (6e300 ^ 2); [unfold DBL_MAX; lra |].
  apply pow_incr. lra.
Defined.











(** * Priors that [rng.choice] refuses *)

Lemma asarray_ok (a : loc) (h : heap) (o : pyobj) :
  h !! a = Some o ->
  exists h' a',
    np_asarray_float a h = (h', Ok a')
    /\ forall l o', h !! l = Some o' -> h' !! l = Some o'.
Proof.
  intros Ha.
  destruct (np_asarray_float a h) as [h' [a' | e |]] eqn:E.
  - exists h', a'. split; [reflexivity |].
    intros l o' Hl. pose proof (preserves_asarray a h l o' Hl) as Hp.
    rewrite E in Hp. exact Hp.
  - unfold np_asarray_float in E. rewrite Ha in E.
    destruct o as [[] d | [] d | []]; discriminate.
  - unfold np_asarray_float in E. rewrite Ha in E.
    destruct o as [[] d | [] d | []]; discriminate.
Qed.

Lemma traverse_rows_np_div (s : R) (rs : list (list R)) :
  s <> 0 ->
  traverse (traverse (fun x => np_div x s)) rs
  = Ok (map (map (fun x => x / s)) rs).
Proof.
  intros Hs. induction rs as [| r rs IH]; simpl; [reflexivity |].
  rewrite traverse_np_div by exact Hs. simpl. rewrite IH. reflexivity.
Qed.

Lemma traverse_np_div_zero (d : list R) :
  d <> [] -> traverse (fun x => np_div x 0) d = NonReal.
Proof.
  destruct d as [| x d]; [congruence |]. intros _. simpl.
  unfold np_div, np_true_divide.
  destruct (decide (0 = 0)) as [_ | H]; [| contradiction].
  destruct (decide (x = 0)); [reflexivity |].
  destruct (decide (0 < x)); reflexivity.
Qed.

Section RefusedPriors.
Context {G : Type} `{NumpyRandom G}.

(** After the division: with a priors object that is 2-D or holds NaN,
    the two other conversions go through and [rng.choice] raises. *)
Lemma gm_sample_rest_refused (n : nat) (p means variances : loc)
    (rs : option Z) (w : world G) (h : heap) (o om ov : pyobj) :
  h !! p = Some o -> (forall c d, o <> Arr1 c d) ->
  h !! means = Some om -> h !! variances = Some ov ->
  exists h',
    (m ← np_asarray_float means;
     v ← np_asarray_float variances;
     pd ← read_p p;
     md ← read2 m;
     vd ← read1 v;
     lift (sample_from n pd md vd (default_rng rs w) (uninit w))) h
    = (h', Raise ValueError)
    /\ h' !! p = Some o.
Proof.
  intros Hp Ho Hm Hv.
  destruct (asarray_ok means h om Hm) as (h3 & m & E3 & Hkeep3).
  destruct (asarray_ok variances h3 ov (Hkeep3 _ _ Hv))
    as (h4 & v & E4 & Hkeep4).
  exists h4. split; [| exact (Hkeep4 _ _ (Hkeep3 _ _ Hp))].
  unfold mbind at 1, hstate_bind at 1. rewrite E3.
  unfold mbind at 1, hstate_bind at 1. rewrite E4.
  unfold mbind at 1, hstate_bind at 1. unfold read_p at 1.
  rewrite (Hkeep4 _ _ (Hkeep3 _ _ Hp)).
  destruct o as [c d | c d | c]; [| reflexivity | reflexivity].
  exfalso. exact (Ho c d eq_refl).
Qed.

(** X22: priors that are refused are divided all the same.  A float64
    priors array that is 2-D (with a non-zero sum) is divided by its sum
    in the caller's object, and a 1-D one that is not empty and sums to
    zero is left holding NaN or infinities; in both cases [rng.choice]
    then raises [ValueError]. *)
Theorem gm_sample_refused_priors (n : nat) (priors means variances : loc)
    (rs : option Z) (w : world G) (h : heap) (om ov : pyobj) :
  h !! means = Some om -> h !! variances = Some ov ->
  (forall m, h !! priors = Some (Arr2 NdFloat64 m) ->
     rsum (concat (rows m)) <> 0 ->
     (gm_sample n priors means variances rs w h).2 = Raise ValueError
     /\ (gm_sample n priors means variances rs w h).1 !! priors
        = Some (Arr2 NdFloat64
                  (Matrix (ncols m)
                     (map (map (fun x => x / rsum (concat (rows m))))
                        (rows m)))))
  /\ (forall d, h !! priors = Some (Arr1 NdFloat64 d) ->
        d <> [] -> rsum d = 0 ->
        (gm_sample n priors means variances rs w h).2 = Raise ValueError
        /\ (gm_sample n priors means variances rs w h).1 !! priors
           = Some (ArrNonReal NdFloat64)).
Proof.
  intros Hm Hv.
  assert (Hrest : forall o, (forall c d, o <> Arr1 c d) ->
            exists h',
              (m ← np_asarray_float means;
               v ← np_asarray_float variances;
               pd ← read_p priors;
               md ← read2 m;
               vd ← read1 v;
               lift (sample_from n pd md vd (default_rng rs w) (uninit w)))
                (<[priors := o]> h)
              = (h', Raise ValueError)
              /\ h' !! priors = Some o).
  { intros o Ho.
    apply (gm_sample_rest_refused n priors means variances rs w
             (<[priors := o]> h) o
             (if decide (means = priors) then o else om)
             (if decide (variances = priors) then o else ov)).
    - apply lookup_insert_eq.
    - exact Ho.
    - destruct (decide (means = priors)) as [-> | Hne];
        [apply lookup_insert_eq
        | rewrite lookup_insert_ne by congruence; exact Hm].
    - destruct (decide (variances = priors)) as [-> | Hne];
        [apply lookup_insert_eq
        | rewrite lookup_insert_ne by congruence; exact Hv]. }
  split.
  - intros m Hp Hs.
    assert (Hrun : exists h',
              gm_sample n priors means variances rs w h
              = (h', Raise ValueError)
              /\ h' !! priors
                 = Some (Arr2 NdFloat64
                           (Matrix (ncols m)
                              (map (map (fun x => x / rsum (concat (rows m))))
                                 (rows m))))).
    { unfold gm_sample.
      unfold mbind at 1, hstate_bind at 1.
      unfold np_asarray_float at 1. rewrite Hp.
      unfold mbind at 1, hstate_bind at 1.
      unfold idiv_sum at 1. rewrite Hp.
      rewrite traverse_rows_np_div by exact Hs.
      apply Hrest. intros c d. discriminate. }
    destruct Hrun as (h' & -> & Hp'). split; [reflexivity | exact Hp'].
  - intros d Hp Hd Hs.
    assert (Hrun : exists h',
              gm_sample n priors means variances rs w h
              = (h', Raise ValueError)
              /\ h' !! priors = Some (ArrNonReal NdFloat64)).
    { unfold gm_sample.
      unfold mbind at 1, hstate_bind at 1.
      unfold np_asarray_float at 1. rewrite Hp.
      unfold mbind at 1, hstate_bind at 1.
      unfold idiv_sum at 1. rewrite Hp, Hs.
      rewrite traverse_np_div_zero by exact Hd.
      apply Hrest. intros c d'. discriminate. }
    destruct Hrun as (h' & -> & Hp'). split; [reflexivity | exact Hp'].
Qed.
End RefusedPriors.

Lemma gm_sample_refused_priors_witness :
  (gm_sample (G := nat) 2 0 1 2 (Some 37%Z) (World 0%nat (fun _ _ => 0))
     heap_2d).2 = Raise ValueError
  /\ (gm_sample (G := nat) 2 0 1 2 (Some 37%Z) (World 0%nat (fun _ _ => 0))
        heap_2d).1 !! 0%nat
     = Some (Arr2 NdFloat64
               (Matrix (ncols priors_2d)
                  (map (map (fun x => x / rsum (concat (rows priors_2d))))
                     (rows priors_2d)))).
Proof.
  apply (proj1 (gm_sample_refused_priors (G := nat) 2 0 1 2 (Some 37%Z)
                  (World 0%nat (fun _ _ => 0)) heap_2d
                  (Arr2 NdFloat64 (Matrix 1 [[0]; [2]]))
                  (Arr1 NdFloat64 [0.5; 3]) eq_refl eq_refl)
           priors_2d eq_refl).
  unfold rsum. simpl. lra.
Defined.
